(** * The cupSODA simulator adapter of PySB, embedded in Rocq

    This development embeds [pysb/simulator/cupsoda.py] shallowly:
    the binary discovery ([set_cupsoda_path], [_get_cupsoda_path]),
    the block planner ([_get_nblocks]), the rate-matrix compiler
    ([_get_cmatrix]), the input-file encoder ([_create_input_files]),
    the output decoder ([_load_trajectories]), the driver ([run]) and
    the options of the constructor ([__init__]).

    Conventions.
    - The module is Python 2 code ([exec ... in], files opened ['wb'] and
      written with [str], [print_function] from [__future__]); [/] on two
      integers is therefore floor division.
    - numpy/Python floats are modelled by exact rationals ([Qc]); a cell
      that holds not-a-number is [None] in an [option Qc].
    - An exception is a value of [exn]; code that may raise returns a
      [result]; code that also touches the interpreter's global state or
      the operating system runs in the monad [M], which threads a [State]
      and keeps it when an exception is raised.
    - What the module takes from the interpreter or the operating system
      and does not define itself ([str] and [float] on floating point
      numbers, [re.match], the file system, the subprocess, pycuda) is a
      field of [Builtins] or of [World]. *)

From Stdlib Require Import String Ascii List Sorted ZArith QArith Qcanon Lia Bool DecimalString.
From stdpp Require Import base option list strings gmap.

Local Open Scope string_scope.
Local Open Scope Z_scope.

(** ** Python values shared by all components *)

Inductive exn : Type :=
| SimulatorException (msg : string)   (* pysb.simulator.base.SimulatorException *)
| Exception (msg : string)            (* the builtin Exception, raised as such *)
| ValueError
| IndexError
| KeyError
| ZeroDivisionError
| NameError
| CudaError.                          (* pycuda refusing a device index *)

Inductive result (A : Type) : Type :=
| Ok (a : A)
| Raise (e : exn).
Arguments Ok {A} a.
Arguments Raise {A} e.

#[global] Instance result_ret : MRet result := @Ok.
#[global] Instance result_bind : MBind result := λ A B k r,
  match r with
  | Ok a => k a
  | Raise e => Raise e
  end.

(** [for x in l: acc = body(acc, x)] where the body may raise. *)
Fixpoint rfold {A B} (body : B → A → result B) (l : list A) (acc : B) : result B :=
  match l with
  | [] => Ok acc
  | x :: l' => acc' ← body acc x; rfold body l' acc'
  end.

(** [[f(x) for x in l]] where [f] may raise. *)
Fixpoint rmap {A B} (f : A → result B) (l : list A) : result (list B) :=
  match l with
  | [] => Ok []
  | x :: l' => y ← f x; ys ← rmap f l'; Ok (y :: ys)
  end.

(** [l[i]] on a Python list or a numpy row: [IndexError] out of range. *)
Definition getitem {A} (l : list A) (i : nat) : result A :=
  match l !! i with
  | Some x => Ok x
  | None => Raise IndexError
  end.

(** [l[i] = x] on a Python list: [IndexError] out of range. *)
Definition setitem {A} (l : list A) (i : nat) (x : A) : result (list A) :=
  if decide (i < length l)%nat then Ok (<[i:=x]> l) else Raise IndexError.

Definition nl : string := String (ascii_of_nat 10) EmptyString.
Definition tab : string := String (ascii_of_nat 9) EmptyString.

(** [str(n)] for a non-negative and for an arbitrary Python integer. *)
Definition str_nat (n : nat) : string := NilZero.string_of_uint (Nat.to_uint n).
Definition str_int (z : Z) : string := NilZero.string_of_int (Z.to_int z).

(** Builtins on floating point numbers and regular expressions, which the
    module calls and does not define. [float_of_str x] is [None] where
    [float(x)] raises [ValueError]. *)
Class Builtins : Type := {
  str_float : Qc → string;
  float_of_str : string → option Qc;
  re_match : string → string → bool;
}.

(** Modelled from the spec: Avogadro's number, [scipy.constants.N_A], which
    is imported and not defined in the sources (the SI value, in 1/mol). *)
Definition N_A : Qc := Q2Qc (602214076 * 10 ^ 15 # 1).

(** [x ** n] for a float [x] and a Python integer [n]; [0.0] to a negative
    power raises [ZeroDivisionError]. *)
Definition pow_int (x : Qc) (n : Z) : result Qc :=
  if 0 <=? n then Ok (x ^ Z.to_nat n)%Qc
  else if decide (x = 0%Qc) then Raise ZeroDivisionError
  else Ok (/ (x ^ Z.to_nat (- n)))%Qc.

(** Truth value of [self.vol] in [if self.vol:]: [None] and [0.0] are false. *)
Definition truthy_vol (vol : option Qc) : option Qc :=
  match vol with
  | Some v => if decide (v = 0%Qc) then None else Some v
  | None => None
  end.

(** ** The reaction network handed over by BioNetGen *)

Record Reaction : Type := {
  reactants : list nat;       (* rxn['reactants'], species indices *)
  products : list nat;        (* rxn['products'] *)
  rate_args : list string;    (* [str(arg) for arg in rxn['rate'].args] *)
}.

Record Model : Type := {
  name : string;
  species : list string;            (* str(sp) of every species *)
  reactions : list Reaction;
  parameters : list string;         (* parameter names, in model order *)
  parameters_rules : list string;   (* names of the parameters used in rules *)
  observables : list (list nat);    (* obs.species of every observable *)
}.

Definition source_name : string := "__source()".

(** ** Solver options and the simulator object *)

Record Options : Type := {
  max_steps : Z;
  atol : Qc;
  rtol : Qc;
  n_blocks : option Z;
  memory_usage : string;
}.

Definition default_integrator_options : Options :=
  {| max_steps := 20000;
     atol := Q2Qc (1 # 100000000);
     rtol := Q2Qc (1 # 100000000);
     n_blocks := None;
     memory_usage := "sharedconstant" |}.

Record Simulator : Type := {
  model : Model;
  tspan : list Qc;
  initials : list (list Qc);
  param_values : list (list Qc);
  verbose : bool;
  gpu : nat;
  vol : option Qc;
  obs_species_only : bool;
  cleanup : bool;
  prefix : string;
  base_dir : option string;
  opts : Options;
}.

Definition len_species (self : Simulator) : nat := length (species (model self)).
Definition len_rxns (self : Simulator) : nat := length (reactions (model self)).
Definition len_tspan (self : Simulator) : nat := length (tspan self).

(** ** Rate-matrix compiler: [CupSodaSimulator._get_cmatrix] *)

(** [re.match("_*s", x) is not None]: at the start of [x], any number of
    underscores and then the letter s. The greedy star cannot give back an
    underscore to stand for the s, so one pass decides. *)
Fixpoint re_match_us_s (x : string) : bool :=
  match x with
  | EmptyString => false
  | String c rest =>
      if Ascii.eqb c "_" then re_match_us_s rest else Ascii.eqb c "s"
  end.

(** [param_values[:, rate_mask]] on one row: numpy refuses a boolean index
    whose length is not that of the axis. *)
Fixpoint compress {A} (mask : list bool) (row : list A) : list A :=
  match mask, row with
  | b :: mask', x :: row' => if b then x :: compress mask' row' else compress mask' row'
  | _, _ => []
  end.

Definition index_mask {A} (mask : list bool) (row : list A) : result (list A) :=
  if decide (length mask = length row) then Ok (compress mask row) else Raise IndexError.

(** [{par_names[i]: i for i in range(len(par_names))}]; a later occurrence
    of a name replaces an earlier one. *)
Definition make_par_dict (par_names : list string) : gmap string nat :=
  foldl (λ d p, <[p.2 := p.1]> d) ∅ (imap pair par_names).

Definition dict_get (d : gmap string nat) (x : string) : result nat :=
  match d !! x with
  | Some k => Ok k
  | None => Raise KeyError
  end.

(** The body of [for rxn in self._model.reactions]: the arguments kept for
    the reaction and its order. *)
Definition kept_args (rxn : Reaction) : list string :=
  filter (λ x, re_match_us_s x = false) (rate_args rxn).

Definition count_reactants (sp : list string) (rxn : Reaction) : result nat :=
  rfold (λ n i, s ← getitem sp i;
                Ok (if decide (s = source_name) then n else S n))
        (reactants rxn) 0%nat.

Section Cmatrix.
Context `{Builtins}.

(** One turn of [for r in rate_args[j]]. *)
Definition rate_step (par_names : list string) (par_dict : gmap string nat)
    (row : list Qc) (rate : Qc) (x : string) : result Qc :=
  if decide (x ∈ par_names) then
    k ← dict_get par_dict x;
    v ← getitem row k;
    Ok (rate * v)%Qc
  else
    match float_of_str x with
    | Some v => Ok (rate * v)%Qc
    | None => Raise ValueError
    end.

(** The body of [for j in range(self._len_rxns)], returning the value
    stored in [c_matrix[i][j]]. *)
Definition cmatrix_cell (vol : option Qc) (par_names : list string)
    (par_dict : gmap string nat) (rate_args : list (list string))
    (rate_order : list nat) (row : list Qc) (j : nat) : result Qc :=
  args ← getitem rate_args j;
  rate ← rfold (rate_step par_names par_dict row) args 1%Qc;
  match truthy_vol vol with
  | Some v =>
      order ← getitem rate_order j;
      scale ← pow_int (N_A * v)%Qc (Z.of_nat order - 1);
      Ok (rate * scale)%Qc
  | None => Ok rate
  end.

(** [_get_cmatrix]; the progress lines printed when [verbose] is set are
    left out. *)
Definition _get_cmatrix (self : Simulator) : result (list (list Qc)) :=
  let m := model self in
  let par_names := parameters_rules m in
  let rate_mask := (λ p, bool_decide (p ∈ parameters_rules m)) <$> parameters m in
  let par_dict := make_par_dict par_names in
  par_vals ← rmap (index_mask rate_mask) (param_values self);
  let rate_args := kept_args <$> reactions m in
  rate_order ← rmap (count_reactants (species m)) (reactions m);
  rmap (λ row, rmap (cmatrix_cell (vol self) par_names par_dict rate_args rate_order row)
                    (seq 0 (len_rxns self)))
       par_vals.
End Cmatrix.

(** ** The interpreter's surroundings *)

Record DeviceAttrs : Type := {
  MAX_SHARED_MEMORY_PER_BLOCK : N;
  MAX_THREADS_PER_BLOCK : N;
}.

(** What [p.communicate()] and [p.returncode] give once the solver exits. *)
Record Process : Type := {
  p_stdout : string;
  p_stderr : string;
  returncode : Z;
}.

Record World : Type := {
  environ : gmap string string;              (* os.environ *)
  access_F_OK : string → bool;               (* os.access(p, os.F_OK) *)
  access_X_OK : string → bool;               (* os.access(p, os.X_OK) *)
  isfile : string → bool;                    (* os.path.isfile *)
  abspath : string → string;                 (* os.path.abspath *)
  pycuda : option (list DeviceAttrs);        (* None: [import pycuda] failed *)
  pandas : bool;                             (* [pd] is not None *)
  pandas_faster : bool;                      (* outcome of the timing in _test_pandas *)
  mkdtemp : string → option string → string; (* tempfile.mkdtemp(prefix, dir) *)
  popen : list string → Process;             (* the solver run on a command line *)
  listdir : string → list string;            (* os.listdir, after the solver ran *)
  file_rows : string → list (list string);   (* [line.rstrip('\n').split() for line in f] *)
}.

Inductive Event : Type :=
| Mkdtemp (d : string)
| Mkdir (d : string)
| WriteFile (path content : string)
| Print (line : string)
| Popen (command : list string)
| ReadFile (path : string)
| Rmtree (d : string).

(** The module global [_cupsoda_path] and the trace of what was done to
    the outside. *)
Record State : Type := {
  _cupsoda_path : option string;
  events : list Event;
}.

Definition M (A : Type) : Type := State → result A * State.

#[global] Instance M_ret : MRet M := λ A a s, (Ok a, s).
#[global] Instance M_bind : MBind M := λ A B k m s,
  match m s with
  | (Ok a, s') => k a s'
  | (Raise e, s') => (Raise e, s')
  end.

Definition raise {A} (e : exn) : M A := λ s, (Raise e, s).
Definition lift {A} (r : result A) : M A := λ s, (r, s).
Definition emit (e : Event) : M unit :=
  λ s, (Ok (), {| _cupsoda_path := _cupsoda_path s; events := events s ++ [e] |}).
Definition get_cupsoda_path_global : M (option string) := λ s, (Ok (_cupsoda_path s), s).
Definition set_cupsoda_path_global (p : option string) : M unit :=
  λ s, (Ok (), {| _cupsoda_path := p; events := events s |}).

(** ** GPU block planner: [CupSodaSimulator._get_nblocks] *)

(** The local [threads_per_block]. [cuda.Device(gpu)] raises for an index
    the driver does not know. *)
Definition threads_per_block (w : World) (gpu len_species : nat) : result Z :=
  let default_threads_per_block := 32 in
  let bytes_per_float := 4 in
  let memory_per_thread := (Z.of_nat len_species + 1) * bytes_per_float in
  match pycuda w with
  | None => Ok default_threads_per_block
  | Some devices =>
      match devices !! gpu with
      | None => Raise CudaError
      | Some attrs =>
          let shared_memory_per_block := Z.of_N (MAX_SHARED_MEMORY_PER_BLOCK attrs) in
          let upper_limit_threads_per_block := Z.of_N (MAX_THREADS_PER_BLOCK attrs) in
          let max_threads_per_block :=
            Z.min (shared_memory_per_block / memory_per_thread)
                  upper_limit_threads_per_block in
          Ok (Z.min max_threads_per_block default_threads_per_block)
      end
  end.

(** [int(np.ceil(1. * n / t))]: the division raises for [t = 0]; the
    ceiling of the exact quotient otherwise. *)
Definition ceil_div (n t : Z) : result Z :=
  if t =? 0 then Raise ZeroDivisionError else Ok (- ((- n) / t)).

Definition _get_nblocks (w : World) (self : Simulator) : result Z :=
  match n_blocks (opts self) with
  | Some b => Ok b
  | None =>
      t ← threads_per_block w (gpu self) (len_species self);
      ceil_div (Z.of_nat (length (param_values self))) t
  end.

(** ** Binary discovery: [set_cupsoda_path] and [_get_cupsoda_path] *)

Definition last_char (s : string) : option ascii :=
  last (list_ascii_of_string s).

(** [os.path.join(a, b)] (posixpath). *)
Definition path_join (a b : string) : string :=
  match b with
  | String "/" _ => b
  | _ =>
      if bool_decide (a = "") || bool_decide (last_char a = Some "/"%char)
      then a +:+ b
      else a +:+ "/" +:+ b
  end.

Definition set_cupsoda_path (w : World) (directory : string) : M unit :=
  let p := path_join directory "cupSODA" in
  _ ← set_cupsoda_path_global (Some p);
  if negb (access_F_OK w p) || negb (isfile w p) then
    raise (SimulatorException
             ("Could not find cupSODA binary in " +:+ abspath w directory +:+ "."))
  else if negb (access_X_OK w p) then
    raise (SimulatorException
             ("cupSODA binary in " +:+ abspath w directory +:+
              " does not have executable permissions."))
  else mret ().

Definition path_var : string := "CUPSODAPATH".

Definition bin_dirs : list string :=
  ["/usr/local/share/cupSODA"; "c:/Program Files/cupSODA"].

(** The inner [_check_bin_dir]; Python's [False] is [None]. *)
Definition _check_bin_dir (w : World) (bin_dir : string) : option string :=
  let bin_path := path_join bin_dir "cupSODA" in
  if access_F_OK w bin_path then Some bin_path else None.

Definition env_not_found_msg : string :=
  "Environment variable " +:+ path_var +:+
  " is set but the path could not be found, is not accessible or does not " +:+
  "contain a cupSODA executable file.".

Definition not_installed_msg : string :=
  "Could not find cupSODA installed in one of the following locations:" +:+
  String.concat "" ((λ x, nl +:+ "    " +:+ x) <$> bin_dirs) +:+
  nl +:+ "Please put the executable (or a link to it) in one of these " +:+
  "locations or set the path using set_cupsoda_path().".

(** [for b in bin_dirs: ...]. The [else] of the source belongs to the [if]
    inside the loop, not to the [for]: every turn of the loop either breaks
    or raises, so the tail of the list is never looked at. A loop over no
    directory would leave [bin_path] unbound. *)
Definition search_bin_dirs (w : World) (dirs : list string) : result string :=
  match dirs with
  | [] => Raise NameError
  | b :: _ =>
      match _check_bin_dir w b with
      | Some bin_path => Ok bin_path
      | None => Raise (SimulatorException not_installed_msg)
      end
  end.

(** Truth value of the global in [if _cupsoda_path:]: [None] and the empty
    string are false. *)
Definition truthy_path (o : option string) : option string :=
  match o with
  | Some p => if bool_decide (p = "") then None else Some p
  | None => None
  end.

Definition _get_cupsoda_path (w : World) : M string :=
  cached ← get_cupsoda_path_global;
  match truthy_path cached with
  | Some p => mret p
  | None =>
      bin_path ←
        match environ w !! path_var with
        | Some d =>
            match _check_bin_dir w d with
            | Some bin_path => mret bin_path
            | None => raise (SimulatorException env_not_found_msg)
            end
        | None => lift (search_bin_dirs w bin_dirs)
        end;
      _ ← set_cupsoda_path_global (Some bin_path);
      mret bin_path
  end.

(** ** Input-file encoder: [CupSodaSimulator._create_input_files] *)

(** A file is what its [write] calls put into it, in order. *)
Definition written (chunks : list string) : string := String.concat "" chunks.

(** [line = ""; for j in range(n): if j > 0: line += "\t"; line += cell(j)]. *)
Definition tab_line (n : nat) (cell : nat → result string) : result string :=
  chunks ← rmap (λ j, c ← cell j;
                      Ok ((if bool_decide (0 < j)%nat then [tab] else []) ++ [c])%list)
                (seq 0 n);
  Ok (written (concat chunks)).

(** [for i in range(n): f.write(line(i)); if i < n - 1: f.write("\n")]. *)
Definition rows_then_newline (n : nat) (line : nat → result string) : result string :=
  chunks ← rmap (λ i, l ← line i;
                      Ok (l :: if Z.of_nat i <? Z.of_nat n - 1 then [nl] else []))
                (seq 0 n);
  Ok (written (concat chunks)).

(** [for i in range(n): if i < n - 1: f.write(line(i) + "\n") else: f.write(line(i))]. *)
Definition rows_with_newline (n : nat) (line : nat → result string) : result string :=
  chunks ← rmap (λ i, l ← line i;
                      Ok [if Z.of_nat i <? Z.of_nat n - 1 then l +:+ nl else l])
                (seq 0 n);
  Ok (written (concat chunks)).

(** [stoich = 0; for k in side: if j == k: stoich += 1]. *)
Definition stoich (side : list nat) (j : nat) : nat :=
  foldl (λ n k, if decide (j = k) then S n else n) 0%nat side.

(** The species to output: all of them, or those of the observables. *)
Definition select_out_species (self : Simulator) : result (list nat) :=
  let n := len_species self in
  if obs_species_only self then
    flags ← rfold (λ flags obs, rfold (λ flags i, setitem flags i true) obs flags)
                  (observables (model self))
                  ((λ _, false) <$> species (model self));
    Ok (filter (λ i, flags !! i = Some true) (seq 0 n))
  else Ok (seq 0 n).

(** [mx0[:, i] = 1.] on one row. *)
Definition set_column (i : nat) (row : list Qc) : result (list Qc) :=
  setitem row i 1%Qc.

(** The index of the first species whose [str] is ['__source()']. *)
Definition source_index (sp : list string) : option nat :=
  fst <$> list_find (λ s, s = source_name) sp.

(** The matrix written to MX_0: [self.initials], or its copy rescaled by
    [N_A * vol] with the source column set to 1. *)
Definition scaled_initials (self : Simulator) : result (list (list Qc)) :=
  match truthy_vol (vol self) with
  | Some v =>
      let mx0 : list (list Qc) :=
        (λ row : list Qc, (λ x, x / (N_A * v))%Qc <$> row) <$> initials self in
      match source_index (species (model self)) with
      | Some i => rmap (set_column i) mx0
      | None => Ok mx0
      end
  | None => Ok (initials self)
  end.

Section Encoder.
Context `{Builtins}.

Definition atol_vector_file (self : Simulator) : result string :=
  rows_then_newline (len_species self) (λ _, Ok (str_float (atol (opts self)))).

Definition matrix_file (rows cols : nat) (mtx : list (list Qc)) : result string :=
  rows_then_newline rows (λ i,
    tab_line cols (λ j, row ← getitem mtx i; x ← getitem row j; Ok (str_float x))).

Definition c_matrix_file (self : Simulator) : result string :=
  cmtx ← _get_cmatrix self;
  matrix_file (length (param_values self)) (len_rxns self) cmtx.

Definition cs_vector_file (out_species : list nat) : result string :=
  chunks ← rmap (λ i, x ← getitem out_species i;
                      Ok ((if bool_decide (0 < i)%nat then [nl] else []) ++ [str_nat x])%list)
                (seq 0 (length out_species));
  Ok (written (concat chunks)).

Definition side_file (self : Simulator) (side : Reaction → list nat) : result string :=
  rows_with_newline (len_rxns self) (λ i,
    tab_line (len_species self) (λ j,
      rxn ← getitem (reactions (model self)) i;
      Ok (str_nat (stoich (side rxn) j)))).

Definition left_side_file (self : Simulator) : result string := side_file self reactants.
Definition right_side_file (self : Simulator) : result string := side_file self products.

Definition max_steps_file (self : Simulator) : string := str_int (max_steps (opts self)).

Definition modelkind_file : string := "deterministic".

Definition MX_0_file (self : Simulator) : result string :=
  mx0 ← scaled_initials self;
  matrix_file (length (param_values self)) (len_species self) mx0.

Definition rtol_file (self : Simulator) : string := str_float (rtol (opts self)).

(** [for t in self.tspan: t_vector.write(str(float(t)) + "\n")]. *)
Definition t_vector_file (self : Simulator) : string :=
  written ((λ t, str_float t +:+ nl) <$> tspan self).

(** [str(float(self.tspan[-1]))]. *)
Definition time_max_file (self : Simulator) : result string :=
  match last (tspan self) with
  | Some t => Ok (str_float t)
  | None => Raise IndexError
  end.

(** A [with open(...)] block that ran to its end: the file and all that
    was written to it. A block left by an exception records nothing. *)
Definition write_file (dir name : string) (content : result string) : M unit :=
  c ← lift content;
  emit (WriteFile (path_join dir name) c).

(** [_create_input_files]; the value returned is [self._out_species], the
    attribute the method sets for the decoder. *)
Definition _create_input_files (self : Simulator) (dir : string) : M (list nat) :=
  _ ← write_file dir "atol_vector" (atol_vector_file self);
  _ ← write_file dir "c_matrix" (c_matrix_file self);
  out_species ← lift (select_out_species self);
  _ ← write_file dir "cs_vector" (cs_vector_file out_species);
  _ ← write_file dir "left_side" (left_side_file self);
  _ ← write_file dir "max_steps" (Ok (max_steps_file self));
  _ ← write_file dir "modelkind" (Ok modelkind_file);
  _ ← write_file dir "MX_0" (MX_0_file self);
  _ ← write_file dir "right_side" (right_side_file self);
  _ ← write_file dir "rtol" (Ok (rtol_file self));
  _ ← write_file dir "t_vector" (Ok (t_vector_file self));
  _ ← write_file dir "time_max" (time_max_file self);
  mret out_species.
End Encoder.

(** ** Output decoder: [CupSodaSimulator._load_trajectories] *)

(** [np.array(data, dtype=np.float)] on the token rows of a file: every
    token goes through [float], and rows of unequal length are refused. *)
Definition np_array_float `{Builtins} (rows : list (list string)) : result (list (list Qc)) :=
  parsed ← rmap (rmap (λ x, match float_of_str x with
                            | Some v => Ok v
                            | None => Raise ValueError
                            end)) rows;
  match parsed with
  | [] => Ok []
  | r :: rest =>
      if forallb (λ r', bool_decide (length r' = length r)) rest
      then Ok parsed else Raise ValueError
  end.

(** numpy broadcasting of one axis to length [n]. *)
Definition broadcast {A} (n : nat) (l : list A) : result (list A) :=
  if decide (length l = n) then Ok l
  else match l with
       | [x] => Ok (replicate n x)
       | _ => Raise ValueError
       end.

(** [row[out_species] = vals] for one time point. *)
Definition assign_columns (out_species : list nat) (vals : list (option Qc))
    (row : list (option Qc)) : result (list (option Qc)) :=
  rfold (λ row p, setitem row p.1 p.2) (zip out_species vals) row.

(** [traj[:, out_species] = data[:, 1:]] on the not-a-number matrix. *)
Definition store_data (len_tspan len_species : nat) (out_species : list nat)
    (data : list (list Qc)) : result (list (list (option Qc))) :=
  rows ← broadcast len_tspan (drop 1 <$> data);
  rmap (λ r : list Qc,
          vals ← broadcast (length out_species) r;
          assign_columns out_species (Some <$> vals) (replicate len_species None))
       rows.

(** [traj[:, out_species] *= c]: the selected columns are read, multiplied
    and written back; not-a-number stays not-a-number. *)
Definition scale_columns (out_species : list nat) (c : Qc)
    (traj : list (list (option Qc))) : result (list (list (option Qc))) :=
  rmap (λ row : list (option Qc),
          vals ← rmap (getitem row) out_species;
          assign_columns out_species ((λ o : option Qc, (λ x, x * c)%Qc <$> o) <$> vals) row)
       traj.

(** The part of the loop body after the file is loaded: the time column
    and the trajectory of one simulation. *)
Definition decode_data (self : Simulator) (out_species : list nat)
    (data : list (list Qc)) : result (list Qc * list (list (option Qc))) :=
  tout_n ← match data with
           | [] => Raise IndexError
           | _ => rmap (λ r, getitem r 0%nat) data
           end;
  traj ← store_data (len_tspan self) (len_species self) out_species data;
  traj ← match truthy_vol (vol self) with
         | Some v => scale_columns out_species (N_A * v)%Qc traj
         | None => Ok traj
         end;
  Ok (tout_n, traj).

Section Decoder.
Context `{Builtins}.

(** [_load_with_openfile] and [_load_with_pandas]: both read the file and
    are taken to parse the same matrix from it. *)
Definition _load_with_openfile (w : World) (filename : string) : M (list (list Qc)) :=
  _ ← emit (ReadFile filename);
  lift (np_array_float (file_rows w filename)).

Definition _load_with_pandas (w : World) (filename : string) : M (list (list Qc)) :=
  _ ← emit (ReadFile filename);
  lift (np_array_float (file_rows w filename)).

(** [_test_pandas]: the second component is whether pandas was quicker. *)
Definition _test_pandas (w : World) (filename : string) : M (list (list Qc) * bool) :=
  data ← _load_with_openfile w filename;
  if pandas w then
    _ ← _load_with_pandas w filename;
    if pandas_faster w then mret (data, true) else mret (data, false)
  else mret (data, false).

Definition no_output_msg : string := "Cannot find any output files to load data from.".

Definition count_mismatch_msg (n_files n_sims : nat) : string :=
  "Number of input files (" +:+ str_nat n_files +:+
  ") does not match number of requested simulations (" +:+ str_nat n_sims +:+ ").".

(** The body of [for n in range(n_sims)], with [use_pandas] carried from
    one turn to the next. *)
Definition load_one (w : World) (self : Simulator) (out_species : list nat)
    (indir_prefix : string) (use_pandas : bool) (n : nat)
    : M (list Qc * list (list (option Qc)) * bool) :=
  let filename := indir_prefix +:+ "_" +:+ str_nat n in
  if negb (isfile w filename) then
    raise (Exception ("Cannot find input file " +:+ filename))
  else
    '(data, use_pandas) ←
      (if bool_decide (n = 0%nat) then _test_pandas w filename
       else if use_pandas then d ← _load_with_pandas w filename; mret (d, use_pandas)
       else d ← _load_with_openfile w filename; mret (d, use_pandas));
    '(tout_n, traj) ← lift (decode_data self out_species data);
    mret (tout_n, traj, use_pandas).

Fixpoint load_all (w : World) (self : Simulator) (out_species : list nat)
    (indir_prefix : string) (use_pandas : bool) (ns : list nat)
    : M (list (list Qc) * list (list (list (option Qc)))) :=
  match ns with
  | [] => mret ([], [])
  | n :: ns' =>
      '(tout_n, traj, use_pandas) ← load_one w self out_species indir_prefix use_pandas n;
      '(tout, trajectories) ← load_all w self out_species indir_prefix use_pandas ns';
      mret (tout_n :: tout, traj :: trajectories)
  end.

Definition _load_trajectories (w : World) (self : Simulator) (dir : string)
    (out_species : list nat) : M (list (list Qc) * list (list (list (option Qc)))) :=
  let files := filter (λ filename, re_match (prefix self) filename = true) (listdir w dir) in
  if bool_decide (length files = 0%nat) then
    raise (SimulatorException no_output_msg)
  else if bool_decide (length files ≠ length (param_values self)) then
    raise (SimulatorException
             (count_mismatch_msg (length files) (length (param_values self))))
  else
    let n_sims := length files in
    let indir_prefix := path_join dir (prefix self) in
    load_all w self out_species indir_prefix false (seq 0 n_sims).
End Decoder.

(** ** The driver: [CupSodaSimulator.run] *)

(** [s.rstrip(chars)]: trailing characters that belong to [chars] go, one
    by one, until one does not. *)
Fixpoint rstrip_by (strip : ascii → bool) (s : string) : string :=
  match s with
  | EmptyString => EmptyString
  | String c rest =>
      match rstrip_by strip rest with
      | EmptyString => if strip c then EmptyString else String c EmptyString
      | kept => String c kept
      end
  end.

Definition in_chars (chars : string) (c : ascii) : bool :=
  existsb (Ascii.eqb c) (list_ascii_of_string chars).

Definition rstrip_chars (chars s : string) : string := rstrip_by (in_chars chars) s.

(** [s.rstrip()]: space, tab, line feed, vertical tab, form feed, carriage return. *)
Definition is_space (c : ascii) : bool :=
  let n := nat_of_ascii c in
  ((n =? 32) || ((9 <=? n) && (n <=? 13)))%nat.

Definition rstrip (s : string) : string := rstrip_by is_space s.

(** The property [_memory_usage]. *)
Definition _memory_options (key : string) : option string :=
  if bool_decide (key = "global") then Some "0"
  else if bool_decide (key = "shared") then Some "1"
  else if bool_decide (key = "sharedconstant") then Some "2"
  else None.

Definition _memory_usage (self : Simulator) : result string :=
  match _memory_options (memory_usage (opts self)) with
  | Some code => Ok code
  | None => Raise (Exception "memory_usage must be one of %s")
  end.

(** Modelled from the spec: the Result Container
    ([pysb.simulator.base.SimulationResult], defined outside the sources),
    which "aggregates per-simulation trajectories" for the caller. *)
Record SimulationResult : Type := {
  simulator : Simulator;
  tout : list (list Qc);
  trajectories : list (list (list (option Qc)));
}.

Section Run.
Context `{Builtins}.

(** [run]; the call of the base class at its head, which only stores
    [tspan], [initials] and [param_values], is taken as done. With
    [verbose] the loop over [p.stdout.readline] drains the pipe before
    [communicate] is called, which then returns no standard output. *)
Definition run (w : World) (self : Simulator) : M SimulationResult :=
  let outdir := mkdtemp w (prefix self +:+ "_") (base_dir self) in
  _ ← emit (Mkdtemp outdir);
  _ ← (if verbose self then emit (Print ("Output directory is " +:+ outdir)) else mret ());
  let _cupsoda_infiles_dir := path_join outdir "INPUT" in
  _ ← emit (Mkdir _cupsoda_infiles_dir);
  let _cupsoda_outfiles_dir := path_join outdir "OUTPUT" in
  _ ← emit (Mkdir _cupsoda_outfiles_dir);
  bin_path ← _get_cupsoda_path w;
  n_blocks ← lift (_get_nblocks w self);
  out_species ← _create_input_files self _cupsoda_infiles_dir;
  memory ← lift (_memory_usage self);
  let command :=
    [bin_path; _cupsoda_infiles_dir; str_int n_blocks; _cupsoda_outfiles_dir;
     prefix self; str_nat (gpu self); "0"; memory;
     if verbose self then "1" else "0"] in
  _ ← emit (Print ("Running cupSODA: " +:+ String.concat " " command));
  _ ← emit (Popen command);
  let p := popen w command in
  _ ← (if verbose self then emit (Print (p_stdout p)) else mret ());
  let p_out := if verbose self then "" else p_stdout p in
  let p_err := p_stderr p in
  if bool_decide (returncode p ≠ 0) then
    raise (SimulatorException (rstrip_chars "at line" p_out +:+ nl +:+ rstrip p_err))
  else
    '(tout, trajectories) ← _load_trajectories w self _cupsoda_outfiles_dir out_species;
    _ ← (if cleanup self then emit (Rmtree outdir) else mret ());
    mret {| simulator := self; tout := tout; trajectories := trajectories |}.
End Run.

(** ** The constructor's options: [CupSodaSimulator.__init__] *)

(** A value held by a dictionary of integrator options. *)
Inductive OptValue : Type :=
| OInt (z : Z)
| OFloat (q : Qc)
| OStr (s : string)
| ONone.

(** The class attribute [default_integrator_options], a dictionary of
    dictionaries with the one entry ['cupsoda']; [default_integrator_options]
    above is that entry as a record. *)
Definition cupsoda_defaults : gmap string OptValue :=
  {[ "max_steps" := OInt 20000;
     "atol" := OFloat (Q2Qc (1 # 100000000));
     "rtol" := OFloat (Q2Qc (1 # 100000000));
     "n_blocks" := ONone;
     "memory_usage" := OStr "sharedconstant" ]}.

Definition integrator_defaults : gmap string (gmap string OptValue) :=
  {[ "cupsoda" := cupsoda_defaults ]}.

(** [options.update(d)]: the entries of [d] are added to [options] and
    replace those of the same key. *)
Definition dict_update (options d : gmap string OptValue) : gmap string OptValue :=
  d ∪ options.

(** Truth value of what [dict.get] returns: [None] and the empty
    dictionary are false. *)
Definition truthy_dict (o : option (gmap string OptValue)) : bool :=
  match o with
  | Some d => negb (bool_decide (d = ∅))
  | None => false
  end.

(** The part of [__init__] that builds [self.opts] from [self.integrator]
    and [kwargs.get('integrator_options', {})]. The message of the
    exception in the [else] branch is built from [integrator], which is
    neither a variable of the constructor nor a name of the module:
    evaluating it raises NameError before a SimulatorException exists. *)
Definition init_options (integrator : string) (integrator_options : gmap string OptValue)
    : result (gmap string OptValue) :=
  let options : gmap string OptValue := ∅ in
  options ←
    (if truthy_dict (integrator_defaults !! integrator) then
       match integrator_defaults !! integrator with
       | Some d => Ok (dict_update options d)
       | None => Raise KeyError
       end
     else Raise NameError);
  Ok (dict_update options integrator_options).

(** * Vocabulary of the specification *)

(** ** Rate matrix *)

(** [k] is the last position of the name [x] in [names] (the only one,
    when names are unique). *)
Definition last_index (names : list string) (x : string) (k : nat) : Prop :=
  names !! k = Some x ∧ ∀ k', names !! k' = Some x → (k' ≤ k)%nat.

(** The rate argument [x] evaluates to [v] under the rate-parameter row
    [row]: the value in the column of the parameter of that name, or the
    number the argument spells. *)
Definition arg_value `{Builtins} (par_names : list string) (row : list Qc)
    (x : string) (v : Qc) : Prop :=
  if decide (x ∈ par_names)
  then ∃ k, last_index par_names x k ∧ row !! k = Some v
  else float_of_str x = Some v.

Definition product (vals : list Qc) : Qc := foldr Qcmult 1%Qc vals.


(** A non-zero number to an integer power. *)
Definition zpow (x : Qc) (z : Z) : Qc :=
  if 0 <=? z then (x ^ Z.to_nat z)%Qc else (/ (x ^ Z.to_nat (- z)))%Qc.

(** The columns of a parameter row that belong to rate parameters. *)
Definition rate_columns (m : Model) (params : list Qc) : list Qc :=
  compress ((λ p, bool_decide (p ∈ parameters_rules m)) <$> parameters m) params.


(** ** Solver binary *)

(** The file at [p] exists, is a regular file and may be executed: what
    [set_cupsoda_path] asks of a solver binary. (The module never asks
    whether a file may be read.) *)
Definition executable_file (w : World) (p : string) : bool :=
  access_F_OK w p && isfile w p && access_X_OK w p.

(** ** Input files *)

(** The text of a table: cells joined by tabs into rows, rows joined by
    newlines, and nothing after the last row. *)
Definition table_text (table : list (list string)) : string :=
  String.concat nl (String.concat tab <$> table).




(** ** Encoding and decoding *)

(** The output of a solver that hands the state it was started in back:
    for one simulation, one row with the time and the encoded initial
    value of every selected species. *)
Definition echo_data (out_species : list nat) (t : Qc) (mx0_row : list Qc)
    : result (list (list Qc)) :=
  vals ← rmap (getitem mx0_row) out_species;
  Ok [t :: vals].

(** Encoding the initial values of simulation [i] and decoding them again:
    the matrix of MX_0, the selector of cs_vector, and the decoder run on
    the row of simulation [i]. *)
Definition roundtrip (self : Simulator) (i : nat) : result (list (list (option Qc))) :=
  mx0 ← scaled_initials self;
  out_species ← select_out_species self;
  row ← getitem mx0 i;
  data ← echo_data out_species 0%Qc row;
  decoded ← decode_data self out_species data;
  Ok decoded.2.

(** ** Traces of a run *)

(** Events of the part of [run] before the solver is started, and events
    of the decoder. *)
Definition is_setup (e : Event) : Prop :=
  match e with
  | Mkdtemp _ | Mkdir _ | WriteFile _ _ | Print _ => True
  | _ => False
  end.

Definition is_read (e : Event) : Prop :=
  match e with
  | ReadFile _ => True
  | _ => False
  end.

(** All that a computation adds to the trace satisfies [P]. *)
Definition emits {A} (P : Event → Prop) (m : M A) : Prop :=
  ∀ s, ∃ new, events (m s).2 = (events s ++ new)%list ∧ Forall P new.

(** The directories of a run and the output files the decoder counts. *)
Definition run_outdir (w : World) (self : Simulator) : string :=
  mkdtemp w (prefix self +:+ "_") (base_dir self).

Definition run_outfiles_dir (w : World) (self : Simulator) : string :=
  path_join (run_outdir w self) "OUTPUT".

Definition matching_files `{Builtins} (w : World) (self : Simulator) (dir : string)
    : list string :=
  filter (λ filename, re_match (prefix self) filename = true) (listdir w dir).

(** [t] occurs somewhere in [s]. *)
Fixpoint contains_text (t s : string) : bool :=
  String.prefix t s ||
  match s with
  | EmptyString => false
  | String _ s' => contains_text t s'
  end.

(** The message of the exception [run] raises for a solver that failed. *)
Definition solver_error_msg (self : Simulator) (p : Process) : string :=
  rstrip_chars "at line" (if verbose self then "" else p_stdout p) +:+ nl +:+
  rstrip (p_stderr p).

(** What the solver prints is echoed when [verbose] is set. *)
Definition said (w : World) (self : Simulator) (command : list string) : list Event :=
  if verbose self then [Print (p_stdout (popen w command))] else [].

(** The four ways a computation [m] that ends like [run] can go from the
    state [st]: it fails before the solver is started; the solver exits
    with a non-zero code; the decoder fails; or a result is returned. *)
Inductive run_case `{Builtins} (w : World) (self : Simulator)
    (m : M SimulationResult) (st : State) : Prop :=
| NotStarted (e : exn) (st' : State) (setup : list Event) :
    Forall is_setup setup →
    m st = (Raise e, st') →
    events st' = (events st ++ setup)%list →
    run_case w self m st
| SolverFailed (command : list string) (st' : State) (setup : list Event) :
    Forall is_setup setup →
    returncode (popen w command) ≠ 0 →
    m st = (Raise (SimulatorException (solver_error_msg self (popen w command))), st') →
    events st' = (events st ++ setup ++ Popen command :: said w self command)%list →
    run_case w self m st
| DecodeFailed (command : list string) (out_species : list nat) (e : exn)
    (st1 st' : State) (setup reads : list Event) :
    Forall is_setup setup →
    Forall is_read reads →
    returncode (popen w command) = 0 →
    events st1 = (events st ++ setup ++ Popen command :: said w self command)%list →
    _load_trajectories w self (run_outfiles_dir w self) out_species st1 = (Raise e, st') →
    events st' = (events st1 ++ reads)%list →
    m st = (Raise e, st') →
    run_case w self m st
| Succeeded (command : list string) (out_species : list nat)
    (res : SimulationResult) (st1 st2 st' : State) (setup reads : list Event) :
    Forall is_setup setup →
    Forall is_read reads →
    returncode (popen w command) = 0 →
    events st1 = (events st ++ setup ++ Popen command :: said w self command)%list →
    _load_trajectories w self (run_outfiles_dir w self) out_species st1 =
      (Ok (tout res, trajectories res), st2) →
    events st2 = (events st1 ++ reads)%list →
    m st = (Ok res, st') →
    events st' =
      (events st2 ++ if cleanup self then [Rmtree (run_outdir w self)] else [])%list →
    run_case w self m st.

(** * Vocabulary for the components taken one by one *)

(** ** The encoder as a list of files *)

(** The files of [_create_input_files] in the order of the source, each
    with its content; cs_vector needs the selector first. *)
Definition input_files `{Builtins} (self : Simulator) : list (string * result string) :=
  [("atol_vector", atol_vector_file self);
   ("c_matrix", c_matrix_file self);
   ("cs_vector", select_out_species self ≫= cs_vector_file);
   ("left_side", left_side_file self);
   ("max_steps", Ok (max_steps_file self));
   ("modelkind", Ok modelkind_file);
   ("MX_0", MX_0_file self);
   ("right_side", right_side_file self);
   ("rtol", Ok (rtol_file self));
   ("t_vector", Ok (t_vector_file self));
   ("time_max", time_max_file self)].

(** Writing files one after the other until the content of one raises:
    the events, and the exception that ends the writing, if any. *)
Fixpoint files_written (dir : string) (files : list (string * result string))
    : list Event :=
  match files with
  | [] => []
  | (name, Ok c) :: rest => WriteFile (path_join dir name) c :: files_written dir rest
  | (_, Raise _) :: _ => []
  end.

Fixpoint first_error (files : list (string * result string)) : option exn :=
  match files with
  | [] => None
  | (_, Ok _) :: rest => first_error rest
  | (_, Raise e) :: _ => Some e
  end.

(** ** The output files of the solver *)

(** The file the decoder reads for simulation [n]. *)
Definition output_file (self : Simulator) (dir : string) (n : nat) : string :=
  path_join dir (prefix self) +:+ "_" +:+ str_nat n.

(** The reads of a decoder that gets through every file: one for each
    simulation, and one more of the first file where pandas is installed,
    to time it. *)
Definition reads_of (w : World) (self : Simulator) (dir : string) (n : nat)
    : list Event :=
  ReadFile (output_file self dir n) ::
  (if bool_decide (n = 0%nat) && pandas w then [ReadFile (output_file self dir n)] else []).

(** A value of a file as the decoder returns it: multiplied by Avogadro's
    number times the volume when a volume is set. *)
Definition decoded (self : Simulator) (x : Qc) : Qc :=
  match truthy_vol (vol self) with
  | Some v => (x * (N_A * v))%Qc
  | None => x
  end.

(** What one row of a trajectory holds for the values [vals] of the
    selected species, each multiplied by [c]. *)
Definition row_holds (out : list nat) (n : nat) (c : Qc) (vals : list Qc)
    (trow : list (option Qc)) : Prop :=
  length trow = n ∧
  (∀ p j x, out !! p = Some j → vals !! p = Some x → trow !! j = Some (Some (x * c)%Qc)) ∧
  (∀ j, j ∉ out → (j < n)%nat → trow !! j = Some None).

(** ** The stages of a run *)

Definition run_infiles_dir (w : World) (self : Simulator) : string :=
  path_join (run_outdir w self) "INPUT".

(** The events of [run] before it looks for the solver. *)
Definition dirs_made (w : World) (self : Simulator) : list Event :=
  (Mkdtemp (run_outdir w self) ::
   (if verbose self then [Print ("Output directory is " +:+ run_outdir w self)] else []) ++
   [Mkdir (run_infiles_dir w self); Mkdir (run_outfiles_dir w self)])%list.

(** The command line of the solver. *)
Definition solver_command (w : World) (self : Simulator) (bin_path : string)
    (n_blocks : Z) (memory : string) : list string :=
  [bin_path; run_infiles_dir w self; str_int n_blocks; run_outfiles_dir w self;
   prefix self; str_nat (gpu self); "0"; memory;
   if verbose self then "1" else "0"].

Definition announced (command : list string) : Event :=
  Print ("Running cupSODA: " +:+ String.concat " " command).

(** The part of [run] from the call of [subprocess.Popen] on. *)
Definition launch `{Builtins} (w : World) (self : Simulator) (command : list string)
    (out_species : list nat) : M SimulationResult :=
  _ ← emit (Popen command);
  _ ← (if verbose self then emit (Print (p_stdout (popen w command))) else mret ());
  if bool_decide (returncode (popen w command) ≠ 0) then
    raise (SimulatorException
             (rstrip_chars "at line"
                (if verbose self then "" else p_stdout (popen w command))
              +:+ nl +:+ rstrip (p_stderr (popen w command))))
  else
    '(tout, trajectories) ←
      _load_trajectories w self (run_outfiles_dir w self) out_species;
    _ ← (if cleanup self then emit (Rmtree (run_outdir w self)) else mret ());
    mret {| simulator := self; tout := tout; trajectories := trajectories |}.

(** Events that follow the start of the solver. *)
Definition is_later (e : Event) : Prop :=
  match e with
  | Print _ | ReadFile _ | Rmtree _ => True
  | _ => False
  end.

(** A computation that leaves the module global as it was. *)
Definition keeps_path {A} (m : M A) : Prop :=
  ∀ s, _cupsoda_path (m s).2 = _cupsoda_path s.

(** * Data to run the definitions on *)

Definition qz (z : Z) : Qc := Q2Qc (inject_Z z).

(** Stand-ins for the builtins, enough for the examples below: a whole
    number is printed the way Python prints it ([10.0]), any other number
    as a fraction; [float] reads unsigned decimal integers only; [re.match]
    compares the pattern with the start of the text letter by letter, which
    is what a pattern without special characters does. *)
Definition example_str_float (q : Qc) : string :=
  if (Qden q =? 1)%positive then str_int (Qnum q) +:+ ".0"
  else str_int (Qnum q) +:+ "/" +:+ str_int (Zpos (Qden q)).

Definition example_float_of_str (x : string) : option Qc :=
  match x with
  | EmptyString => None
  | _ => (λ u, qz (Z.of_uint u)) <$> NilEmpty.uint_of_string x
  end.

Definition example_builtins : Builtins :=
  {| str_float := example_str_float;
     float_of_str := example_float_of_str;
     re_match := String.prefix |}.

(** Two species, one reaction A -> B with rate [k * __s0], one observable
    on species 0, three simulations, no volume. *)
Definition example_model : Model :=
  {| name := "example";
     species := ["A()"; "B()"];
     reactions := [{| reactants := [0%nat]; products := [1%nat];
                      rate_args := ["k"; "__s0"] |}];
     parameters := ["k"; "A_0"];
     parameters_rules := ["k"];
     observables := [[0%nat]] |}.

Definition example_sim : Simulator :=
  {| model := example_model;
     tspan := [qz 0; qz 1];
     initials := [[qz 10; qz 0]; [qz 10; qz 0]; [qz 10; qz 0]];
     param_values := [[qz 1; qz 10]; [qz 2; qz 10]; [qz 3; qz 10]];
     verbose := false;
     gpu := 0;
     vol := None;
     obs_species_only := true;
     cleanup := true;
     prefix := "example";
     base_dir := None;
     opts := default_integrator_options |}.

(** The same run in number units, in a volume of 1. *)
Definition example_sim_vol : Simulator :=
  {| model := example_model;
     tspan := [qz 0; qz 1];
     initials := [[qz 10; qz 0]; [qz 10; qz 0]; [qz 10; qz 0]];
     param_values := [[qz 1; qz 10]; [qz 2; qz 10]; [qz 3; qz 10]];
     verbose := false;
     gpu := 0;
     vol := Some (qz 1);
     obs_species_only := true;
     cleanup := true;
     prefix := "example";
     base_dir := None;
     opts := default_integrator_options |}.

(** A machine with the solver in the first standard place, no pycuda, no
    pandas, and a solver that succeeds and writes one file per simulation. *)
Definition example_world : World :=
  {| environ := ∅;
     access_F_OK := λ p, bool_decide (p = "/usr/local/share/cupSODA/cupSODA");
     access_X_OK := λ p, bool_decide (p = "/usr/local/share/cupSODA/cupSODA");
     isfile := λ p, bool_decide (p ≠ "/usr/local/share/cupSODA");
     abspath := λ p, p;
     pycuda := None;
     pandas := false;
     pandas_faster := false;
     mkdtemp := λ prefix dir, "/tmp/" +:+ prefix +:+ "run";
     popen := λ command, {| p_stdout := ""; p_stderr := ""; returncode := 0 |};
     listdir := λ d, ["example_0"; "example_1"; "example_2"];
     file_rows := λ f, [["0"; "10"]; ["1"; "9"]] |}.

Definition initial_state : State := {| _cupsoda_path := None; events := [] |}.

(** A machine like [example_world] on which CUPSODAPATH names a directory
    that holds no solver. *)
Definition env_wrong_world : World :=
  {| environ := {[ path_var := "/opt/missing" ]};
     access_F_OK := access_F_OK example_world;
     access_X_OK := access_X_OK example_world;
     isfile := isfile example_world;
     abspath := abspath example_world;
     pycuda := pycuda example_world;
     pandas := pandas example_world;
     pandas_faster := pandas_faster example_world;
     mkdtemp := mkdtemp example_world;
     popen := popen example_world;
     listdir := listdir example_world;
     file_rows := file_rows example_world |}.

(** A machine like [example_world] whose solver exits with code 1, having
    printed [error at line] and, on standard error, [boom] and a newline. *)
Definition failing_world : World :=
  {| environ := environ example_world;
     access_F_OK := access_F_OK example_world;
     access_X_OK := access_X_OK example_world;
     isfile := isfile example_world;
     abspath := abspath example_world;
     pycuda := pycuda example_world;
     pandas := pandas example_world;
     pandas_faster := pandas_faster example_world;
     mkdtemp := mkdtemp example_world;
     popen := λ command,
       {| p_stdout := "error at line"; p_stderr := "boom" +:+ nl; returncode := 1 |};
     listdir := λ d, [];
     file_rows := file_rows example_world |}.

(** A machine like [example_world] whose solver succeeds and leaves two
    output files where three simulations were asked for. *)
Definition short_world : World :=
  {| environ := environ example_world;
     access_F_OK := access_F_OK example_world;
     access_X_OK := access_X_OK example_world;
     isfile := isfile example_world;
     abspath := abspath example_world;
     pycuda := pycuda example_world;
     pandas := pandas example_world;
     pandas_faster := pandas_faster example_world;
     mkdtemp := mkdtemp example_world;
     popen := popen example_world;
     listdir := λ d, ["example_0"; "example_1"];
     file_rows := file_rows example_world |}.

(** Synthesis of A from the source pseudo-species, in number units in a
    volume of 1, every species written out. *)
Definition source_model : Model :=
  {| name := "synth";
     species := ["__source()"; "A()"];
     reactions := [{| reactants := [0%nat]; products := [0%nat; 1%nat];
                      rate_args := ["k"; "__s0"] |}];
     parameters := ["k"];
     parameters_rules := ["k"];
     observables := [[1%nat]] |}.

Definition source_sim : Simulator :=
  {| model := source_model;
     tspan := [qz 0; qz 1];
     initials := [[qz 5; qz 10]];
     param_values := [[qz 2]];
     verbose := false;
     gpu := 0;
     vol := Some (qz 1);
     obs_species_only := false;
     cleanup := true;
     prefix := "synth";
     base_dir := None;
     opts := default_integrator_options |}.


(** A machine like [example_world] with pycuda and one device whose shared
    memory per block, 8 bytes, is less than the 12 bytes that one thread of
    a two-species model needs. *)
Definition tiny_gpu_world : World :=
  {| environ := environ example_world;
     access_F_OK := access_F_OK example_world;
     access_X_OK := access_X_OK example_world;
     isfile := isfile example_world;
     abspath := abspath example_world;
     pycuda := Some [{| MAX_SHARED_MEMORY_PER_BLOCK := 8;
                        MAX_THREADS_PER_BLOCK := 1024 |}];
     pandas := pandas example_world;
     pandas_faster := pandas_faster example_world;
     mkdtemp := mkdtemp example_world;
     popen := popen example_world;
     listdir := listdir example_world;
     file_rows := file_rows example_world |}.

(** A machine without CUPSODAPATH on which the solver sits in the second
    standard place only. *)
Definition second_place_world : World :=
  {| environ := ∅;
     access_F_OK := λ p, bool_decide (p = "c:/Program Files/cupSODA/cupSODA");
     access_X_OK := λ p, bool_decide (p = "c:/Program Files/cupSODA/cupSODA");
     isfile := λ p, bool_decide (p = "c:/Program Files/cupSODA/cupSODA");
     abspath := abspath example_world;
     pycuda := pycuda example_world;
     pandas := pandas example_world;
     pandas_faster := pandas_faster example_world;
     mkdtemp := mkdtemp example_world;
     popen := popen example_world;
     listdir := listdir example_world;
     file_rows := file_rows example_world |}.

(** A machine like [example_world] with pycuda and one device of 48 KiB of
    shared memory per block and at most 1024 threads per block. *)
Definition gpu_world : World :=
  {| environ := environ example_world;
     access_F_OK := access_F_OK example_world;
     access_X_OK := access_X_OK example_world;
     isfile := isfile example_world;
     abspath := abspath example_world;
     pycuda := Some [{| MAX_SHARED_MEMORY_PER_BLOCK := 49152;
                        MAX_THREADS_PER_BLOCK := 1024 |}];
     pandas := pandas example_world;
     pandas_faster := pandas_faster example_world;
     mkdtemp := mkdtemp example_world;
     popen := popen example_world;
     listdir := listdir example_world;
     file_rows := file_rows example_world |}.

(** The model of [example_model] with a second reaction B -> A whose rate
    [3 * __s1] names no parameter. *)
Definition two_way_model : Model :=
  {| name := "two_way";
     species := ["A()"; "B()"];
     reactions := [{| reactants := [0%nat]; products := [1%nat];
                      rate_args := ["k"; "__s0"] |};
                   {| reactants := [1%nat]; products := [0%nat];
                      rate_args := ["3"; "__s1"] |}];
     parameters := ["k"; "A_0"];
     parameters_rules := ["k"];
     observables := [[0%nat]] |}.

Definition two_way_sim : Simulator :=
  {| model := two_way_model;
     tspan := tspan example_sim;
     initials := initials example_sim;
     param_values := param_values example_sim;
     verbose := false;
     gpu := 0;
     vol := None;
     obs_species_only := true;
     cleanup := true;
     prefix := "two_way";
     base_dir := None;
     opts := default_integrator_options |}.

(** [example_sim] with a second row of parameter values that holds one
    value where the model has two parameters. *)
Definition ragged_sim : Simulator :=
  {| model := example_model;
     tspan := tspan example_sim;
     initials := initials example_sim;
     param_values := [[qz 1; qz 10]; [qz 2]];
     verbose := false;
     gpu := 0;
     vol := None;
     obs_species_only := true;
     cleanup := true;
     prefix := "example";
     base_dir := None;
     opts := default_integrator_options |}.

(** A machine like [example_world] with pandas installed and quicker than
    the plain reader. *)
Definition pandas_world : World :=
  {| environ := environ example_world;
     access_F_OK := access_F_OK example_world;
     access_X_OK := access_X_OK example_world;
     isfile := isfile example_world;
     abspath := abspath example_world;
     pycuda := pycuda example_world;
     pandas := true;
     pandas_faster := true;
     mkdtemp := mkdtemp example_world;
     popen := popen example_world;
     listdir := listdir example_world;
     file_rows := file_rows example_world |}.

(** The command line of the solver for [example_sim] on [example_world]. *)
Definition example_command : list string :=
  ["/usr/local/share/cupSODA/cupSODA"; "/tmp/example_run/INPUT"; "1";
   "/tmp/example_run/OUTPUT"; "example"; "0"; "0"; "2"; "0"].

(** [example_sim] asking for a memory option that does not exist. *)
Definition bad_memory_sim : Simulator :=
  {| model := example_model;
     tspan := tspan example_sim;
     initials := initials example_sim;
     param_values := param_values example_sim;
     verbose := false;
     gpu := 0;
     vol := None;
     obs_species_only := true;
     cleanup := true;
     prefix := "example";
     base_dir := None;
     opts := {| max_steps := 20000;
                atol := Q2Qc (1 # 100000000);
                rtol := Q2Qc (1 # 100000000);
                n_blocks := None;
                memory_usage := "texture" |} |}.

(** [example_sim] with [cleanup] off. *)
Definition keep_files_sim : Simulator :=
  {| model := example_model;
     tspan := tspan example_sim;
     initials := initials example_sim;
     param_values := param_values example_sim;
     verbose := false;
     gpu := 0;
     vol := None;
     obs_species_only := true;
     cleanup := false;
     prefix := "example";
     base_dir := None;
     opts := default_integrator_options |}.

(** * Properties *)

(** ** The model on concrete inputs *)

Example placeholder_names :
  re_match_us_s "__s0" = true ∧ re_match_us_s "s12" = true ∧
  re_match_us_s "kf" = false ∧ re_match_us_s "_k" = false ∧
  re_match_us_s "" = false.
Proof. repeat split. Qed.

Example rstrip_takes_a_set_of_characters :
  rstrip_chars "at line" "error at line" = "error" ∧
  rstrip_chars "at line" "fatal" = "f" ∧
  rstrip ("boom " +:+ nl) = "boom".
Proof. repeat split. Qed.

Example path_join_examples :
  path_join "/opt/cupsoda" "cupSODA" = "/opt/cupsoda/cupSODA" ∧
  path_join "/opt/cupsoda/" "cupSODA" = "/opt/cupsoda/cupSODA" ∧
  path_join "" "cupSODA" = "cupSODA".
Proof. repeat split. Qed.

Example blocks_for_forty_simulations :
  ceil_div 40 32 = Ok 2 ∧ ceil_div 64 32 = Ok 2 ∧ ceil_div 65 32 = Ok 3 ∧
  ceil_div 3 0 = Raise ZeroDivisionError.
Proof. repeat split. Qed.

(** With pycuda, a device that has no room for one thread leaves the
    planner with zero threads per block, and the division raises. *)
Example planner_without_room_for_a_thread :
  threads_per_block tiny_gpu_world 0 2 = Ok 0 ∧
  _get_nblocks tiny_gpu_world example_sim = Raise ZeroDivisionError.
Proof. split; reflexivity. Qed.

Example stoichiometry_counts_occurrences :
  stoich [0; 2; 0]%nat 0 = 2%nat ∧ stoich [0; 2; 0]%nat 1 = 0%nat.
Proof. split; reflexivity. Qed.

(** The end-to-end scenario of the specification: two species, one
    reaction, three simulations, no volume, observables only, one
    observable on species 0. cs_vector holds [0], and the column of
    species 1 is not-a-number at every time point of every trajectory. *)
Example observed_species_only :
  (select_out_species example_sim ≫= cs_vector_file) = Ok "0" ∧
  match @run example_builtins example_world example_sim initial_state with
  | (Ok res, _) =>
      length (trajectories res) = 3%nat ∧
      Forall (Forall (λ row : list (option Qc), row !! 1%nat = Some None))
             (trajectories res)
  | (Raise _, _) => False
  end.
Proof.
  split; [reflexivity|]. vm_compute. split; [reflexivity | repeat constructor].
Qed.

(** ** Loops that may raise *)

Lemma rfold_cons {A B} (body : B → A → result B) (x : A) (l : list A) (acc : B) :
  rfold body (x :: l) acc = body acc x ≫= rfold body l.
Proof. reflexivity. Qed.

Lemma rmap_cons {A B} (f : A → result B) (x : A) (l : list A) :
  rmap f (x :: l) = y ← f x; ys ← rmap f l; Ok (y :: ys).
Proof. reflexivity. Qed.

Lemma rbind_Ok {A B} (r : result A) (k : A → result B) (b : B) :
  r ≫= k = Ok b ↔ ∃ a, r = Ok a ∧ k a = Ok b.
Proof.
  destruct r as [a|e]; cbn; split.
  - intros Hk. exists a. auto.
  - intros (a' & [= <-] & Hk). exact Hk.
  - discriminate.
  - intros (a' & [=] & _).
Qed.

Lemma rbind_Raise {A B} (r : result A) (k : A → result B) (e : exn) :
  r ≫= k = Raise e ↔ r = Raise e ∨ ∃ a, r = Ok a ∧ k a = Raise e.
Proof.
  destruct r as [a|e']; cbn; split.
  - intros Hk. right. exists a. auto.
  - intros [[=]|(a' & [= <-] & Hk)]. exact Hk.
  - intros [= <-]. left. reflexivity.
  - intros [[= <-]|(a' & [=] & _)]. reflexivity.
Qed.

Lemma rmap_Ok_Forall2 {A B} (f : A → result B) (l : list A) (ys : list B) :
  rmap f l = Ok ys ↔ Forall2 (λ x y, f x = Ok y) l ys.
Proof.
  revert ys. induction l as [|x l IH]; intros ys; cbn.
  - split.
    + intros [= <-]. constructor.
    + intros Hf. inversion Hf. reflexivity.
  - rewrite rbind_Ok. split.
    + intros (y & Hy & Hrest). apply rbind_Ok in Hrest as (ys' & Hys' & [= <-]).
      constructor; [exact Hy | apply IH, Hys'].
    + intros Hf. inversion Hf as [|? y ? ys' Hy Hys']; subst.
      exists y. split; [exact Hy|]. apply IH in Hys'. rewrite Hys'. reflexivity.
Qed.

Lemma rmap_Ok_length {A B} (f : A → result B) (l : list A) (ys : list B) :
  rmap f l = Ok ys → length ys = length l.
Proof. rewrite rmap_Ok_Forall2. intros Hf. symmetry. eapply Forall2_length, Hf. Qed.

Lemma rmap_Ok_lookup {A B} (f : A → result B) (l : list A) (ys : list B) (i : nat) (y : B) :
  rmap f l = Ok ys → ys !! i = Some y → ∃ x, l !! i = Some x ∧ f x = Ok y.
Proof.
  rewrite rmap_Ok_Forall2. intros Hf Hy.
  destruct (Forall2_lookup_r _ _ _ _ _ Hf Hy) as (x & Hx & Hfx). eauto.
Qed.


Lemma rmap_total {A B} (f : A → result B) (l : list A) :
  (∀ x, x ∈ l → ∃ y, f x = Ok y) → ∃ ys, rmap f l = Ok ys.
Proof.
  induction l as [|x l IH]; intros Hf; cbn.
  - eexists. reflexivity.
  - destruct (Hf x ltac:(left)) as (y & ->).
    destruct IH as (ys & ->); [intros x' Hx'; apply Hf; right; exact Hx'|].
    cbn. eexists. reflexivity.
Qed.

Lemma rfold_ext_in {A B} (f g : B → A → result B) (l : list A) (acc : B) :
  (∀ b x, x ∈ l → f b x = g b x) → rfold f l acc = rfold g l acc.
Proof.
  revert acc. induction l as [|x l IH]; intros acc Hfg; cbn; [reflexivity|].
  rewrite (Hfg acc x ltac:(left)). destruct (g acc x) as [acc'|e]; cbn; [|reflexivity].
  apply IH. intros b x' Hx'. apply Hfg. right. exact Hx'.
Qed.

Lemma rfold_Raise {A B} (f : B → A → result B) (l : list A) (acc : B) (e : exn) :
  rfold f l acc = Raise e → ∃ b x, x ∈ l ∧ f b x = Raise e.
Proof.
  revert acc. induction l as [|x l IH]; intros acc; cbn; [discriminate|].
  rewrite rbind_Raise. intros [Hx|(acc' & _ & Hrest)].
  - exists acc, x. split; [left | exact Hx].
  - destruct (IH _ Hrest) as (b & x' & Hin & Hx'). exists b, x'. split; [right; exact Hin | exact Hx'].
Qed.

Lemma rmap_fmap_Ok {A B} (f : A → result B) (g : A → B) (l : list A) :
  (∀ x, x ∈ l → f x = Ok (g x)) → rmap f l = Ok (g <$> l).
Proof.
  induction l as [|x l IH]; intros Hf; [reflexivity|].
  rewrite rmap_cons, (Hf x ltac:(left)), IH; [reflexivity|].
  intros x' Hx'. apply Hf. right. exact Hx'.
Qed.

(** ** Block planner *)

Lemma ceil_div_covers (n t b : Z) :
  1 ≤ t → ceil_div n t = Ok b → n ≤ b * t.
Proof.
  intros Ht. unfold ceil_div.
  destruct (Z.eqb_spec t 0) as [->|_]; [lia|].
  intros [= <-].
  pose proof (Z.div_mod (- n) t ltac:(lia)) as Hdm.
  pose proof (Z.mod_pos_bound (- n) t ltac:(lia)) as Hb.
  nia.
Qed.

Lemma ceil_div_returns (n t : Z) :
  (∃ b, ceil_div n t = Ok b) ↔ t ≠ 0.
Proof.
  unfold ceil_div. destruct (Z.eqb_spec t 0) as [->|Hne]; split.
  - intros [b [=]].
  - intros []; reflexivity.
  - intros _. exact Hne.
  - intros _. eexists. reflexivity.
Qed.

Lemma threads_per_block_nonneg (w : World) (gpu n : nat) (t : Z) :
  threads_per_block w gpu n = Ok t → 0 ≤ t ≤ 32.
Proof.
  unfold threads_per_block.
  destruct (pycuda w) as [devices|]; [|intros [= <-]; lia].
  destruct (devices !! gpu) as [attrs|]; [|discriminate].
  intros [= <-].
  assert (0 ≤ Z.of_N (MAX_SHARED_MEMORY_PER_BLOCK attrs) / ((Z.of_nat n + 1) * 4))
    by (apply Z.div_pos; lia).
  lia.
Qed.

(** C4. With no explicit block count and at least one simulation, the
    block count the planner computes, times the threads per block it
    chose, covers the simulations; without pycuda the planner takes 32
    threads per block and returns; an explicit block count is returned as
    it is. On the pycuda path the planner returns exactly when the device
    leaves room for one thread. *)
Theorem nblocks_covers_sims (w : World) (self : Simulator) :
  (1 ≤ length (param_values self))%nat →
  (∀ b, n_blocks (opts self) = Some b → _get_nblocks w self = Ok b) ∧
  (n_blocks (opts self) = None →
     (∀ t b, threads_per_block w (gpu self) (len_species self) = Ok t →
             _get_nblocks w self = Ok b →
             Z.of_nat (length (param_values self)) ≤ b * t) ∧
     (pycuda w = None →
        threads_per_block w (gpu self) (len_species self) = Ok 32 ∧
        ∃ b, _get_nblocks w self = Ok b ∧
             Z.of_nat (length (param_values self)) ≤ b * 32) ∧
     (∀ t, threads_per_block w (gpu self) (len_species self) = Ok t →
           (∃ b, _get_nblocks w self = Ok b) ↔ 1 ≤ t)).
Proof.
  intros Hn. split.
  - intros b Hb. unfold _get_nblocks. rewrite Hb. reflexivity.
  - intros Hnone. unfold _get_nblocks. rewrite Hnone. split; [|split].
    + intros t b Ht. rewrite Ht. cbn. intros Hb.
      pose proof (threads_per_block_nonneg _ _ _ _ Ht) as Hrange.
      apply ceil_div_covers; [|exact Hb].
      destruct (decide (t = 0)) as [->|]; [discriminate Hb | lia].
    + intros Hnocuda. unfold threads_per_block. rewrite Hnocuda. cbn.
      split; [reflexivity|].
      eexists. split; [reflexivity|].
      apply (ceil_div_covers _ 32); [lia | reflexivity].
    + intros t Ht. rewrite Ht. cbn.
      pose proof (threads_per_block_nonneg _ _ _ _ Ht) as Hrange.
      rewrite ceil_div_returns. lia.
Qed.

Lemma nblocks_covers_sims_witness :
  ∃ b, _get_nblocks example_world example_sim = Ok b ∧
       Z.of_nat (length (param_values example_sim)) ≤ b * 32.
Proof.
  assert (1 ≤ length (param_values example_sim))%nat as Hsims by (cbn; lia).
  exact (proj2 (proj1 (proj2 (proj2 (nblocks_covers_sims example_world example_sim Hsims)
                                 eq_refl)) eq_refl)).
Defined.

(** ** Binary discovery *)

Ltac unfold_M :=
  unfold mbind, M_bind, mret, M_ret, raise, lift, emit,
    get_cupsoda_path_global, set_cupsoda_path_global.

Lemma path_join_cupSODA_nonempty (d : string) : path_join d "cupSODA" ≠ "".
Proof.
  unfold path_join.
  destruct (bool_decide (d = "") || bool_decide (last_char d = Some "/"%char));
    destruct d; discriminate.
Qed.

Lemma truthy_path_joined (d : string) :
  truthy_path (Some (path_join d "cupSODA")) = Some (path_join d "cupSODA").
Proof.
  unfold truthy_path. rewrite bool_decide_false by apply path_join_cupSODA_nonempty.
  reflexivity.
Qed.

Lemma get_cached (w : World) (st : State) (p : string) :
  truthy_path (_cupsoda_path st) = Some p → _get_cupsoda_path w st = (Ok p, st).
Proof.
  intros Hp. unfold _get_cupsoda_path. unfold_M. rewrite Hp. reflexivity.
Qed.

Lemma set_then_get (w : World) (st : State) (d : string) :
  let p := path_join d "cupSODA" in
  let st' := (set_cupsoda_path w d st).2 in
  ((set_cupsoda_path w d st).1 = Ok () ↔ executable_file w p = true) ∧
  ((set_cupsoda_path w d st).1 = Ok () → _get_cupsoda_path w st' = (Ok p, st')).
Proof.
  intros p st'. subst st'. unfold set_cupsoda_path, executable_file. fold p. unfold_M.
  destruct (access_F_OK w p), (isfile w p), (access_X_OK w p); cbn [negb orb andb fst snd];
    (split; [split; (reflexivity || discriminate)|]); intros Hok;
    try discriminate Hok.
  apply get_cached. apply truthy_path_joined.
Qed.

Lemma get_from_environ (w : World) (st : State) (d : string) :
  truthy_path (_cupsoda_path st) = None →
  environ w !! path_var = Some d →
  _get_cupsoda_path w st =
  if access_F_OK w (path_join d "cupSODA")
  then (Ok (path_join d "cupSODA"),
        {| _cupsoda_path := Some (path_join d "cupSODA"); events := events st |})
  else (Raise (SimulatorException env_not_found_msg), st).
Proof.
  intros Hcache Henv. unfold _get_cupsoda_path. unfold_M.
  rewrite Hcache, Henv. unfold _check_bin_dir.
  destruct (access_F_OK w (path_join d "cupSODA")); reflexivity.
Qed.

Lemma get_from_first_location (w : World) (st : State) :
  truthy_path (_cupsoda_path st) = None →
  environ w !! path_var = None →
  access_F_OK w "/usr/local/share/cupSODA/cupSODA" = true →
  _get_cupsoda_path w st =
  (Ok "/usr/local/share/cupSODA/cupSODA",
   {| _cupsoda_path := Some "/usr/local/share/cupSODA/cupSODA"; events := events st |}).
Proof.
  intros Hcache Henv Hfile. unfold _get_cupsoda_path. unfold_M.
  rewrite Hcache, Henv. unfold search_bin_dirs, bin_dirs, _check_bin_dir.
  change (path_join "/usr/local/share/cupSODA" "cupSODA")
    with "/usr/local/share/cupSODA/cupSODA".
  rewrite Hfile. reflexivity.
Qed.

Lemma get_keeps_events (w : World) (st : State) :
  events (_get_cupsoda_path w st).2 = events st.
Proof.
  unfold _get_cupsoda_path. unfold_M.
  destruct (truthy_path (_cupsoda_path st)); [reflexivity|].
  destruct (environ w !! path_var) as [d|].
  - destruct (_check_bin_dir w d); reflexivity.
  - destruct (search_bin_dirs w bin_dirs); reflexivity.
Qed.

Lemma get_raises_simulator_exception (w : World) (st : State) (e : exn) :
  (_get_cupsoda_path w st).1 = Raise e → ∃ msg, e = SimulatorException msg.
Proof.
  unfold _get_cupsoda_path. unfold_M.
  destruct (truthy_path (_cupsoda_path st)); [discriminate|].
  destruct (environ w !! path_var) as [d|].
  - destruct (_check_bin_dir w d); [discriminate|]. cbn. intros [= <-]. eauto.
  - unfold search_bin_dirs, bin_dirs.
    destruct (_check_bin_dir w "/usr/local/share/cupSODA"); [discriminate|].
    cbn. intros [= <-]. eauto.
Qed.

(** C7, as the module has it. A path held by the global wins: after a
    call of the setter that succeeded, which it does exactly for an
    existing executable regular file, discovery returns that path. With
    no path held and CUPSODAPATH set, discovery looks at that directory
    alone: it returns and caches the path of a cupSODA file that exists
    there, and raises without looking at the standard places otherwise.
    With neither, it returns and caches the solver of the first standard
    place when that exists. Discovery asks for existence only, and what it
    raises is a SimulatorException. *)
Theorem discovery_precedence (w : World) (st : State) :
  (∀ p, truthy_path (_cupsoda_path st) = Some p →
        _get_cupsoda_path w st = (Ok p, st)) ∧
  (∀ d, ((set_cupsoda_path w d st).1 = Ok () ↔
           executable_file w (path_join d "cupSODA") = true) ∧
        ((set_cupsoda_path w d st).1 = Ok () →
           _get_cupsoda_path w (set_cupsoda_path w d st).2 =
           (Ok (path_join d "cupSODA"), (set_cupsoda_path w d st).2))) ∧
  (truthy_path (_cupsoda_path st) = None →
     ∀ d, environ w !! path_var = Some d →
          _get_cupsoda_path w st =
          if access_F_OK w (path_join d "cupSODA")
          then (Ok (path_join d "cupSODA"),
                {| _cupsoda_path := Some (path_join d "cupSODA");
                   events := events st |})
          else (Raise (SimulatorException env_not_found_msg), st)) ∧
  (truthy_path (_cupsoda_path st) = None →
     environ w !! path_var = None →
     access_F_OK w "/usr/local/share/cupSODA/cupSODA" = true →
     _get_cupsoda_path w st =
     (Ok "/usr/local/share/cupSODA/cupSODA",
      {| _cupsoda_path := Some "/usr/local/share/cupSODA/cupSODA";
         events := events st |})) ∧
  (∀ e, (_get_cupsoda_path w st).1 = Raise e → ∃ msg, e = SimulatorException msg).
Proof.
  split; [intros p; apply get_cached|].
  split; [intros d; apply set_then_get|].
  split; [intros Hcache d; apply get_from_environ, Hcache|].
  split; [apply get_from_first_location|].
  apply get_raises_simulator_exception.
Qed.

Lemma discovery_precedence_witness :
  _get_cupsoda_path example_world initial_state =
  (Ok "/usr/local/share/cupSODA/cupSODA",
   {| _cupsoda_path := Some "/usr/local/share/cupSODA/cupSODA"; events := [] |}).
Proof.
  exact (proj1 (proj2 (proj2 (proj2 (discovery_precedence example_world initial_state))))
           eq_refl eq_refl eq_refl).
Defined.

(** C7 as stated fails: CUPSODAPATH names a directory without a solver,
    the first standard place holds an executable solver, and discovery
    raises instead of going on to the standard places. *)
Lemma environ_miss_hides_standard_places :
  environ env_wrong_world !! path_var = Some "/opt/missing" ∧
  executable_file env_wrong_world (path_join "/usr/local/share/cupSODA" "cupSODA") = true ∧
  _get_cupsoda_path env_wrong_world initial_state =
  (Raise (SimulatorException env_not_found_msg), initial_state).
Proof. split; [|split]; vm_compute; reflexivity. Qed.

(** ** Rate-matrix compiler *)

Lemma pow_int_nonzero (x : Qc) (n : Z) :
  x ≠ 0%Qc → pow_int x n = Ok (zpow x n).
Proof.
  intros Hx. unfold pow_int, zpow.
  destruct (0 <=? n); [reflexivity|].
  destruct (decide (x = 0%Qc)); [contradiction | reflexivity].
Qed.

Lemma N_A_nonzero : N_A ≠ 0%Qc.
Proof. intros Heq. apply (f_equal this) in Heq. vm_compute in Heq. discriminate. Qed.

Lemma N_A_vol_nonzero (vol : option Qc) (v : Qc) :
  truthy_vol vol = Some v → (N_A * v)%Qc ≠ 0%Qc.
Proof.
  unfold truthy_vol. destruct vol as [v'|]; [|discriminate].
  destruct (decide (v' = 0%Qc)); [discriminate|]. intros [= <-] Hz.
  apply Qcmult_integral in Hz as [Hz|Hz]; [exact (N_A_nonzero Hz) | contradiction].
Qed.



Lemma make_par_dict_snoc (names : list string) (y : string) :
  make_par_dict (names ++ [y]) = <[y := length names]> (make_par_dict names).
Proof.
  unfold make_par_dict. rewrite imap_app, foldl_app. cbn.
  rewrite Nat.add_0_r. reflexivity.
Qed.

Lemma make_par_dict_lookup (names : list string) (x : string) (k : nat) :
  make_par_dict names !! x = Some k ↔ last_index names x k.
Proof.
  unfold last_index. revert k. induction names as [|y names IH] using rev_ind; intros k.
  - split; [intros Hk; inversion Hk | intros [Hk _]; inversion Hk].
  - rewrite make_par_dict_snoc. destruct (decide (y = x)) as [->|Hne].
    + rewrite lookup_insert_eq. split.
      * intros [= <-]. split; [apply list_lookup_middle; reflexivity|].
        intros k' Hk'. apply lookup_lt_Some in Hk'. rewrite length_app in Hk'.
        cbn in Hk'. lia.
      * intros [Hk Hmax]. f_equal.
        pose proof (lookup_lt_Some _ _ _ Hk) as Hlt. rewrite length_app in Hlt.
        cbn in Hlt.
        specialize (Hmax (length names) (list_lookup_middle _ _ _ _ eq_refl)). lia.
    + rewrite lookup_insert_ne by exact Hne. rewrite IH. split.
      * intros [Hk Hmax]. split; [apply lookup_app_l_Some; exact Hk|].
        intros k' Hk'. apply lookup_app_Some in Hk' as [Hk'|[_ Hk']]; [auto|].
        destruct (k' - length names)%nat; [|inversion Hk'].
        injection Hk' as ->. contradiction.
      * intros [Hk Hmax].
        assert (∀ k', (names ++ [y])%list !! k' = Some x → names !! k' = Some x) as Hin.
        { intros k' Hk'. apply lookup_app_Some in Hk' as [Hk'|[_ Hk']]; [exact Hk'|].
          destruct (k' - length names)%nat; [|inversion Hk'].
          injection Hk' as ->. contradiction. }
        split; [exact (Hin k Hk)|].
        intros k' Hk'. apply Hmax. apply lookup_app_l_Some. exact Hk'.
Qed.

Section CmatrixFacts.
Context `{Builtins}.

Lemma rate_step_Ok (par_names : list string) (row : list Qc) (rate : Qc)
    (x : string) (r : Qc) :
  rate_step par_names (make_par_dict par_names) row rate x = Ok r ↔
  ∃ v, arg_value par_names row x v ∧ r = (rate * v)%Qc.
Proof.
  unfold rate_step, arg_value, dict_get, getitem.
  destruct (decide (x ∈ par_names)) as [Hin|Hout].
  - setoid_rewrite <- make_par_dict_lookup.
    destruct (make_par_dict par_names !! x) as [k|]; cbn.
    + destruct (row !! k) as [v|] eqn:Hk; cbn; split.
      * intros [= <-]. exists v. split; [exists k; auto | reflexivity].
      * intros (v' & (k' & [= <-] & Hv') & ->). congruence.
      * discriminate.
      * intros (v' & (k' & [= <-] & Hv') & _). congruence.
    + split; [discriminate|]. intros (v' & (k' & [=] & _) & _).
  - destruct (float_of_str x) as [v|]; split.
    + intros [= <-]. exists v. auto.
    + intros (v' & [= <-] & ->). reflexivity.
    + discriminate.
    + intros (v' & [=] & _).
Qed.

Lemma rate_loop_product (par_names : list string) (row : list Qc)
    (args : list string) (acc rate : Qc) :
  rfold (rate_step par_names (make_par_dict par_names) row) args acc = Ok rate →
  ∃ vals, Forall2 (arg_value par_names row) args vals ∧
          rate = (acc * product vals)%Qc.
Proof.
  revert acc. induction args as [|x args IH]; intros acc; cbn.
  - intros [= <-]. exists []. split; [constructor | cbn; ring].
  - rewrite rbind_Ok. intros (acc' & Hstep & Hrest).
    apply rate_step_Ok in Hstep as (v & Hv & ->).
    destruct (IH _ Hrest) as (vals & Hvals & ->).
    exists (v :: vals). split; [constructor; assumption|].
    change (product (v :: vals)) with (v * product vals)%Qc. ring.
Qed.

Lemma index_mask_Ok {A} (mask : list bool) (row masked : list A) :
  index_mask mask row = Ok masked → masked = compress mask row.
Proof. unfold index_mask. destruct (decide _); [intros [= <-]; reflexivity | discriminate]. Qed.

End CmatrixFacts.

(** *** The naming convention for species placeholders *)




Section Placeholders.
Context `{Builtins}.



Lemma rate_step_not_param (par_names : list string) (dict : gmap string nat)
    (row : list Qc) (rate : Qc) (x : string) :
  x ∉ par_names →
  rate_step par_names dict row rate x =
  match float_of_str x with
  | Some v => Ok (rate * v)%Qc
  | None => Raise ValueError
  end.
Proof. intros Hx. unfold rate_step. rewrite decide_False by exact Hx. reflexivity. Qed.



End Placeholders.



(** ** The layout of the input files *)

Lemma append_cons (c : ascii) (s t : string) : String c s +:+ t = String c (s +:+ t).
Proof. reflexivity. Qed.

Lemma append_nil_r (s : string) : s +:+ "" = s.
Proof.
  induction s as [|c s IH]; [reflexivity|].
  rewrite append_cons, IH. reflexivity.
Qed.

Lemma append_assoc (s1 s2 s3 : string) : (s1 +:+ s2) +:+ s3 = s1 +:+ (s2 +:+ s3).
Proof.
  induction s1 as [|c s1 IH]; [reflexivity|].
  rewrite !append_cons, IH. reflexivity.
Qed.

Lemma written_cons (c : string) (cs : list string) :
  written (c :: cs) = c +:+ written cs.
Proof.
  destruct cs as [|c' cs]; [|reflexivity].
  change (c = c +:+ ""). symmetry. apply append_nil_r.
Qed.


Lemma join_cons (sep c : string) (cs : list string) :
  String.concat sep (c :: cs) = c +:+ written ((λ c', sep +:+ c') <$> cs).
Proof.
  revert c. induction cs as [|c' cs IH]; intros c.
  - cbn. rewrite append_nil_r. reflexivity.
  - change (String.concat sep (c :: c' :: cs))
      with (c +:+ sep +:+ String.concat sep (c' :: cs)).
    rewrite IH, fmap_cons, written_cons, append_assoc. reflexivity.
Qed.

Lemma rmap_bind_zip {A B C} (f : A → result B) (g : A → B → C) (l : list A) :
  rmap (λ x, c ← f x; Ok (g x c)) l = cs ← rmap f l; Ok (zip_with g l cs).
Proof.
  induction l as [|x l IH]; [reflexivity|].
  rewrite !rmap_cons, IH. destruct (f x) as [c|e]; cbn; [|reflexivity].
  destruct (rmap f l) as [cs|e]; reflexivity.
Qed.

(** Separator written before every cell but the first. *)
Lemma sep_before_tail (sep : string) (cs : list string) (s : nat) :
  written (concat (zip_with (λ (i : nat) c,
             ((if bool_decide (0 < i)%nat then [sep] else []) ++ [c])%list)
           (seq (S s) (length cs)) cs)) =
  written ((λ c, sep +:+ c) <$> cs).
Proof.
  revert s. induction cs as [|c cs IH]; intros s; [reflexivity|].
  cbn [length seq zip_with concat]. rewrite bool_decide_true by lia.
  cbn [app]. rewrite !written_cons, IH, fmap_cons, written_cons, append_assoc.
  reflexivity.
Qed.

Lemma sep_before_join (sep : string) (cs : list string) :
  written (concat (zip_with (λ (i : nat) c,
             ((if bool_decide (0 < i)%nat then [sep] else []) ++ [c])%list)
           (seq 0 (length cs)) cs)) =
  String.concat sep cs.
Proof.
  destruct cs as [|c cs]; [reflexivity|].
  cbn [length seq zip_with concat]. rewrite bool_decide_false by lia.
  cbn [app]. rewrite written_cons, sep_before_tail, join_cons. reflexivity.
Qed.








Lemma rmap_seq_lookup {A B} (f : nat → result B) (h : A → B) (l : list A) (s : nat) :
  (∀ i x, l !! i = Some x → f (s + i)%nat = Ok (h x)) →
  rmap f (seq s (length l)) = Ok (h <$> l).
Proof.
  revert s. induction l as [|x l IH]; intros s Hf; [reflexivity|].
  cbn [length seq]. rewrite rmap_cons.
  rewrite <- (Nat.add_0_r s) at 1. rewrite (Hf 0%nat x eq_refl). cbn.
  rewrite (IH (S s)); [reflexivity|].
  intros i x' Hx'. replace (S s + i)%nat with (s + S i)%nat by lia.
  apply Hf. exact Hx'.
Qed.


Section Layout.
Context `{Builtins}.



Lemma cs_vector_table (out_species : list nat) :
  cs_vector_file out_species =
  Ok (table_text ((λ i, [str_nat i]) <$> out_species)).
Proof.
  unfold cs_vector_file, table_text.
  rewrite (rmap_bind_zip (getitem out_species)
             (λ (i : nat) x, ((if bool_decide (0 < i)%nat then [nl] else [])
                              ++ [str_nat x])%list)).
  rewrite (rmap_seq_lookup _ id out_species 0)
    by (intros i x Hx; unfold getitem; cbn; rewrite Hx; reflexivity).
  cbn. rewrite list_fmap_id, <- list_fmap_compose.
  rewrite <- (sep_before_join nl (str_nat <$> out_species)), length_fmap.
  rewrite zip_with_fmap_r. reflexivity.
Qed.


End Layout.

(** ** Output-species selector *)

Lemma mark_species (obs : list nat) (flags : list bool) :
  (∀ i, i ∈ obs → (i < length flags)%nat) →
  ∃ flags', rfold (λ flags i, setitem flags i true) obs flags = Ok flags' ∧
            length flags' = length flags ∧
            ∀ j, flags' !! j = Some true ↔ flags !! j = Some true ∨ j ∈ obs.
Proof.
  revert flags. induction obs as [|i obs IH]; intros flags Hrange.
  - exists flags. split; [reflexivity|]. split; [reflexivity|].
    intros j. split; [auto|]. intros [Hj|Hj]; [exact Hj|]. inversion Hj.
  - rewrite rfold_cons.
    assert (setitem flags i true = Ok (<[i:=true]> flags)) as ->.
    { unfold setitem. rewrite decide_True by (apply Hrange; left). reflexivity. }
    cbn.
    destruct (IH (<[i:=true]> flags)) as (flags' & -> & Hlen & Hmarks).
    { intros i' Hi'. rewrite length_insert. apply Hrange. right. exact Hi'. }
    exists flags'. split; [reflexivity|]. rewrite Hlen, length_insert.
    split; [reflexivity|]. intros j. rewrite Hmarks, elem_of_cons.
    destruct (decide (i = j)) as [->|Hne].
    + rewrite list_lookup_insert_eq by (apply Hrange; left). tauto.
    + rewrite list_lookup_insert_ne by exact Hne. split; [tauto|].
      intros [Hj|[Hj|Hj]]; [tauto | congruence | tauto].
Qed.

Lemma mark_observables (observables : list (list nat)) (flags : list bool) :
  (∀ obs i, obs ∈ observables → i ∈ obs → (i < length flags)%nat) →
  ∃ flags', rfold (λ flags obs, rfold (λ flags i, setitem flags i true) obs flags)
                  observables flags = Ok flags' ∧
            length flags' = length flags ∧
            ∀ j, flags' !! j = Some true ↔
                 flags !! j = Some true ∨ ∃ obs, obs ∈ observables ∧ j ∈ obs.
Proof.
  revert flags. induction observables as [|obs observables IH]; intros flags Hrange.
  - exists flags. split; [reflexivity|]. split; [reflexivity|].
    intros j. split; [auto|]. intros [Hj|(obs & Hobs & _)]; [exact Hj|]. inversion Hobs.
  - rewrite rfold_cons.
    destruct (mark_species obs flags) as (flags1 & -> & Hlen1 & Hmarks1).
    { intros i Hi. eapply Hrange; [left | exact Hi]. }
    cbn. destruct (IH flags1) as (flags' & -> & Hlen & Hmarks).
    { intros obs' i Hobs' Hi. rewrite Hlen1. eapply Hrange; [right; exact Hobs' | exact Hi]. }
    exists flags'. split; [reflexivity|]. split; [congruence|].
    intros j. rewrite Hmarks, Hmarks1. split.
    + intros [[Hj|Hj]|(obs' & Hobs' & Hj)]; [auto | right | right].
      * exists obs. split; [left | exact Hj].
      * exists obs'. split; [right; exact Hobs' | exact Hj].
    + intros [Hj|(obs' & Hobs' & Hj)]; [auto|].
      apply elem_of_cons in Hobs' as [->|Hobs']; [auto|].
      right. exists obs'. auto.
Qed.

Lemma StronglySorted_filter_lt (P : nat → Prop) `{∀ i, Decision (P i)} (l : list nat) :
  StronglySorted lt l → StronglySorted lt (filter P l).
Proof.
  induction 1 as [|x l Hsorted IH Hall]; [constructor|].
  rewrite filter_cons. destruct (decide (P x)); [|exact IH].
  constructor; [exact IH|]. apply Forall_forall. intros y Hy.
  apply list_elem_of_filter in Hy as [_ Hy]. apply list_elem_of_In in Hy.
  exact (proj1 (List.Forall_forall _ _) Hall y Hy).
Qed.

Lemma StronglySorted_seq (j n : nat) : StronglySorted lt (seq j n).
Proof.
  revert j. induction n as [|n IH]; intros j; cbn; constructor; [apply IH|].
  apply Forall_forall. intros k Hk. apply elem_of_seq in Hk. lia.
Qed.

(** C3. With every species index of every observable inside the species
    list, the selector in observables-only mode is the increasing list
    of exactly the indices that some observable refers to; in full mode
    it is 0, 1, ..., n_species - 1; and cs_vector holds the selector,
    one index per row. *)
Theorem out_species_selector (self : Simulator) :
  (obs_species_only self = false →
     select_out_species self = Ok (seq 0 (len_species self))) ∧
  (obs_species_only self = true →
     (∀ obs i, obs ∈ observables (model self) → i ∈ obs →
               (i < len_species self)%nat) →
     ∃ sel, select_out_species self = Ok sel ∧
            StronglySorted lt sel ∧
            ∀ i, i ∈ sel ↔ ∃ obs, obs ∈ observables (model self) ∧ i ∈ obs) ∧
  (∀ sel, cs_vector_file sel = Ok (table_text ((λ i, [str_nat i]) <$> sel))).
Proof.
  split; [|split].
  - intros Hmode. unfold select_out_species. rewrite Hmode. reflexivity.
  - intros Hmode Hrange. unfold select_out_species. rewrite Hmode.
    destruct (mark_observables (observables (model self))
                ((λ _, false) <$> species (model self)))
      as (flags & -> & Hlen & Hmarks).
    { intros obs i Hobs Hi. rewrite length_fmap. exact (Hrange obs i Hobs Hi). }
    cbn. eexists. split; [reflexivity|]. split.
    + apply StronglySorted_filter_lt, StronglySorted_seq.
    + intros i. rewrite list_elem_of_filter, Hmarks, elem_of_seq. split.
      * intros [[Hinit|Hobs] _]; [|exact Hobs].
        apply list_lookup_fmap_Some in Hinit as (s & [=] & _).
      * intros (obs & Hobs & Hi). split; [right; eauto|].
        specialize (Hrange obs i Hobs Hi). lia.
  - exact cs_vector_table.
Qed.

Lemma out_species_selector_witness :
  ∃ sel, select_out_species example_sim = Ok sel ∧
         StronglySorted lt sel ∧
         ∀ i, i ∈ sel ↔ ∃ obs, obs ∈ observables (model example_sim) ∧ i ∈ obs.
Proof.
  refine (proj1 (proj2 (out_species_selector example_sim)) eq_refl _).
  intros obs i Hobs Hi. cbn in Hobs.
  apply list_elem_of_singleton in Hobs as ->.
  apply list_elem_of_singleton in Hi as ->. cbn. lia.
Defined.

(** ** The eleven input files *)

Section LayoutTheorem.
Context `{Builtins}.

End LayoutTheorem.



(** ** Encoding and decoding the initial values *)

Lemma select_out_species_range (self : Simulator) (out : list nat) :
  select_out_species self = Ok out →
  NoDup out ∧ ∀ j, j ∈ out → (j < len_species self)%nat.
Proof.
  unfold select_out_species. destruct (obs_species_only self).
  - rewrite rbind_Ok. intros (flags & _ & [= <-]). split.
    + apply NoDup_filter, NoDup_seq.
    + intros j Hj. apply list_elem_of_filter in Hj as [_ Hj].
      apply elem_of_seq in Hj. lia.
  - intros [= <-]. split; [apply NoDup_seq|].
    intros j Hj. apply elem_of_seq in Hj. lia.
Qed.

Lemma assign_columns_lookup (out : list nat) (vals row : list (option Qc)) :
  NoDup out →
  length vals = length out →
  (∀ j, j ∈ out → (j < length row)%nat) →
  ∃ row', assign_columns out vals row = Ok row' ∧
          length row' = length row ∧
          (∀ p j v, out !! p = Some j → vals !! p = Some v → row' !! j = Some v) ∧
          (∀ j, j ∉ out → row' !! j = row !! j).
Proof.
  unfold assign_columns. revert vals row.
  induction out as [|j0 out IH]; intros vals row Hnd Hlen Hrange.
  - exists row. cbn. split; [reflexivity|]. split; [reflexivity|]. split; [|auto].
    intros p j v Hp. inversion Hp.
  - destruct vals as [|v0 vals]; [discriminate|].
    apply NoDup_cons in Hnd as [Hfresh Hnd]. cbn [zip zip_with]. rewrite rfold_cons.
    assert (setitem row j0 v0 = Ok (<[j0:=v0]> row)) as Hset.
    { unfold setitem. rewrite decide_True by (apply Hrange; left). reflexivity. }
    cbn [fst snd]. rewrite Hset. cbn.
    destruct (IH vals (<[j0:=v0]> row) Hnd) as (row' & Hfold & Hlen' & Hin & Hout).
    { cbn in Hlen. lia. }
    { intros j Hj. rewrite length_insert. apply Hrange. right. exact Hj. }
    exists row'. split; [exact Hfold|]. rewrite Hlen', length_insert.
    split; [reflexivity|]. split.
    + intros [|p] j v Hp Hv; cbn in Hp, Hv.
      * injection Hp as <-. injection Hv as <-.
        rewrite (Hout j0 Hfresh). apply list_lookup_insert_eq. apply Hrange. left.
      * exact (Hin p j v Hp Hv).
    + intros j Hj. apply not_elem_of_cons in Hj as [Hne Hj].
      rewrite (Hout j Hj). apply list_lookup_insert_ne. congruence.
Qed.

Lemma broadcast_single {A} (n : nat) (x : A) :
  broadcast n [x] = Ok (replicate n x).
Proof.
  unfold broadcast. destruct (decide (length [x] = n)) as [<-|]; reflexivity.
Qed.

Lemma broadcast_same {A} (l : list A) : broadcast (length l) l = Ok l.
Proof. unfold broadcast. rewrite decide_True by reflexivity. reflexivity. Qed.

Lemma store_then_scale_row (out : list nat) (vals : list Qc) (n : nat) (c : Qc) :
  NoDup out →
  (∀ j, j ∈ out → (j < n)%nat) →
  length vals = length out →
  ∃ stored scaled,
    assign_columns out (Some <$> vals) (replicate n None) = Ok stored ∧
    (vals' ← rmap (getitem stored) out;
     assign_columns out ((λ o : option Qc, (λ x, x * c)%Qc <$> o) <$> vals') stored)
      = Ok scaled ∧
    (∀ p j x, out !! p = Some j → vals !! p = Some x →
              scaled !! j = Some (Some (x * c)%Qc)) ∧
    (∀ j, j ∉ out → (j < n)%nat → scaled !! j = Some None).
Proof.
  intros Hnd Hrange Hlen.
  destruct (assign_columns_lookup out (Some <$> vals) (replicate n None) Hnd)
    as (stored & Hstored & Hlen_stored & Hin & Hout).
  { rewrite length_fmap. exact Hlen. }
  { intros j Hj. rewrite length_replicate. exact (Hrange j Hj). }
  assert (rmap (getitem stored) out = Ok (Some <$> vals)) as Hgather.
  { apply rmap_Ok_Forall2, Forall2_same_length_lookup_2.
    - rewrite length_fmap. symmetry. exact Hlen.
    - intros p j y Hj Hy. unfold getitem. rewrite (Hin p j y Hj Hy). reflexivity. }
  destruct (assign_columns_lookup out
              ((λ o : option Qc, (λ x, x * c)%Qc <$> o) <$> (Some <$> vals))
              stored Hnd)
    as (scaled & Hscaled & _ & Hin' & Hout').
  { rewrite !length_fmap. exact Hlen. }
  { intros j Hj. rewrite Hlen_stored, length_replicate. exact (Hrange j Hj). }
  exists stored, scaled. split; [exact Hstored|]. split; [|split].
  - rewrite Hgather. exact Hscaled.
  - intros p j x Hj Hx. apply (Hin' p j _ Hj).
    rewrite !list_lookup_fmap, Hx. reflexivity.
  - intros j Hj Hn. rewrite (Hout' j Hj), (Hout j Hj).
    apply lookup_replicate_2. exact Hn.
Qed.

Lemma decode_data_echo (self : Simulator) (out : list nat) (v t : Qc) (vals : list Qc) :
  truthy_vol (vol self) = Some v →
  NoDup out →
  (∀ j, j ∈ out → (j < len_species self)%nat) →
  length vals = length out →
  ∃ decoded, decode_data self out [t :: vals] = Ok decoded ∧
    length decoded.2 = len_tspan self ∧
    ∀ r trow, decoded.2 !! r = Some trow →
      (∀ p j x, out !! p = Some j → vals !! p = Some x →
                trow !! j = Some (Some (x * (N_A * v))%Qc)) ∧
      (∀ j, j ∉ out → (j < len_species self)%nat → trow !! j = Some None).
Proof.
  intros Hvol Hnd Hrange Hlen.
  destruct (store_then_scale_row out vals (len_species self) (N_A * v)%Qc Hnd Hrange Hlen)
    as (stored & scaled & Hstored & Hscaled & Hcells & Hrest).
  unfold decode_data, store_data, scale_columns. rewrite Hvol.
  change (rmap (λ r : list Qc, getitem r 0%nat) [t :: vals]) with (Ok [t] : result (list Qc)).
  change (drop 1 <$> [t :: vals]) with [vals].
  rewrite broadcast_single. cbn [mbind result_bind].
  rewrite (rmap_fmap_Ok _ (λ _, stored)).
  2:{ intros r Hr. apply elem_of_replicate in Hr as [-> _].
      rewrite <- Hlen, broadcast_same. exact Hstored. }
  cbn [mbind result_bind].
  rewrite (rmap_fmap_Ok _ (λ _, scaled)).
  2:{ intros row Hrow. apply list_elem_of_fmap in Hrow as (r & -> & _). exact Hscaled. }
  eexists. split; [reflexivity|]. cbn [snd].
  split; [rewrite !length_fmap, length_replicate; reflexivity|].
  intros r trow Htrow.
  apply list_lookup_fmap_Some in Htrow as (row & -> & _).
  split; [exact Hcells | exact Hrest].
Qed.

Lemma scaled_initials_cells (self : Simulator) (v : Qc) :
  truthy_vol (vol self) = Some v →
  (∀ r, r ∈ initials self → length r = len_species self) →
  ∃ mx0, scaled_initials self = Ok mx0 ∧
    ∀ i row, initials self !! i = Some row →
      ∃ row', mx0 !! i = Some row' ∧ length row' = length row ∧
        ∀ j x, row !! j = Some x →
          row' !! j = Some (if decide (source_index (species (model self)) = Some j)
                            then 1%Qc else (x / (N_A * v))%Qc).
Proof.
  intros Hvol Hrect. unfold scaled_initials. rewrite Hvol.
  destruct (source_index (species (model self))) as [k|] eqn:Hk.
  - assert (k < len_species self)%nat as Hrange.
    { unfold source_index in Hk.
      destruct (list_find _ _) as [[k' s]|] eqn:Hfind; [|discriminate].
      injection Hk as <-. apply list_find_Some in Hfind as (Hs & _).
      apply lookup_lt_Some in Hs. exact Hs. }
    rewrite (rmap_fmap_Ok _ (λ row : list Qc, <[k:=1%Qc]> row)).
    2:{ intros row Hrow. apply list_elem_of_fmap in Hrow as (row0 & -> & Hrow0).
        unfold set_column, setitem.
        rewrite decide_True by (rewrite length_fmap, (Hrect row0 Hrow0); exact Hrange).
        reflexivity. }
    eexists. split; [reflexivity|]. intros i row Hrow.
    exists (<[k:=1%Qc]> ((λ x, x / (N_A * v))%Qc <$> row)). split.
    + rewrite !list_lookup_fmap, Hrow. reflexivity.
    + split; [rewrite length_insert, length_fmap; reflexivity|].
      intros j x Hx. destruct (decide (Some k = Some j)) as [[= ->]|Hne].
      * apply list_lookup_insert_eq. rewrite length_fmap.
        apply lookup_lt_Some in Hx. exact Hx.
      * rewrite list_lookup_insert_ne by congruence.
        rewrite list_lookup_fmap, Hx. reflexivity.
  - eexists. split; [reflexivity|]. intros i row Hrow.
    exists ((λ x, x / (N_A * v))%Qc <$> row). split.
    + rewrite list_lookup_fmap, Hrow. reflexivity.
    + split; [apply length_fmap|]. intros j x Hx.
      rewrite decide_False by discriminate.
      rewrite list_lookup_fmap, Hx. reflexivity.
Qed.

Lemma positive_volume_truthy (vol : option Qc) (v : Qc) :
  vol = Some v → (0 < v)%Qc → truthy_vol vol = Some v.
Proof.
  intros -> Hv. unfold truthy_vol. rewrite decide_False; [reflexivity|].
  intros Hzero. exact (Qclt_not_eq _ _ Hv (eq_sym Hzero)).
Qed.

(** C1, as the encoder and the decoder have it. For a volume [v > 0] and
    initial values with one column per species, encoding the initial
    values of a simulation and decoding them with the same volume gives,
    at every time point, for a species column of the selector: the
    initial value itself, unless the column is that of the source
    pseudo-species, whose encoded value is forced to 1 and which decodes
    to Avogadro's number times [v]; a column outside the selector is
    not-a-number. *)
Theorem volume_roundtrip (self : Simulator) (v : Qc) (out : list nat) (i j : nat)
    (row : list Qc) (x : Qc) :
  vol self = Some v →
  (0 < v)%Qc →
  (∀ r, r ∈ initials self → length r = len_species self) →
  select_out_species self = Ok out →
  initials self !! i = Some row →
  row !! j = Some x →
  ∃ traj, roundtrip self i = Ok traj ∧
    length traj = len_tspan self ∧
    ∀ r trow, traj !! r = Some trow →
      trow !! j =
      Some (if decide (j ∈ out)
            then Some (if decide (source_index (species (model self)) = Some j)
                       then (N_A * v)%Qc else x)
            else None).
Proof.
  intros Hvol Hpos Hrect Hout Hrow Hx.
  pose proof (positive_volume_truthy _ _ Hvol Hpos) as Htruthy.
  pose proof (N_A_vol_nonzero _ _ Htruthy) as Hscale.
  destruct (select_out_species_range self out Hout) as [Hnd Hrange].
  destruct (scaled_initials_cells self v Htruthy Hrect) as (mx0 & Hmx0 & Hcells).
  destruct (Hcells i row Hrow) as (row' & Hrow' & Hlen' & Hcell).
  assert (length row = len_species self) as Hlen_row.
  { apply Hrect. apply list_elem_of_lookup. eauto. }
  destruct (rmap_total (getitem row') out) as (vals & Hvals).
  { intros k Hk. unfold getitem.
    destruct (lookup_lt_is_Some_2 row' k) as (y & ->); [|eauto].
    rewrite Hlen', Hlen_row. exact (Hrange k Hk). }
  destruct (decode_data_echo self out v 0%Qc vals Htruthy Hnd Hrange
              (rmap_Ok_length _ _ _ Hvals))
    as (decoded & Hdecoded & Hlen & Hrows).
  exists decoded.2. split; [|split; [exact Hlen|]].
  - unfold roundtrip, echo_data. rewrite Hmx0, Hout. cbn [mbind result_bind].
    assert (getitem mx0 i = Ok row') as -> by (unfold getitem; rewrite Hrow'; reflexivity).
    cbn [mbind result_bind]. rewrite Hvals. cbn [mbind result_bind].
    rewrite Hdecoded. reflexivity.
  - intros r trow Htrow. destruct (Hrows r trow Htrow) as [Hsel Hrest].
    destruct (decide (j ∈ out)) as [Hj|Hj].
    + apply list_elem_of_lookup in Hj as (p & Hp).
      destruct (lookup_lt_is_Some_2 vals p) as (y & Hy).
      { rewrite (rmap_Ok_length _ _ _ Hvals). apply lookup_lt_Some in Hp. exact Hp. }
      destruct (rmap_Ok_lookup _ _ _ _ _ Hvals Hy) as (j' & Hj' & Hget).
      assert (j' = j) as -> by congruence.
      unfold getitem in Hget. rewrite (Hcell j x Hx) in Hget. injection Hget as <-.
      rewrite (Hsel p j _ Hp Hy). do 2 f_equal.
      destruct (decide (source_index (species (model self)) = Some j)); [ring|].
      field. split; [|exact N_A_nonzero].
      intros Hzero. exact (Qclt_not_eq _ _ Hpos (eq_sym Hzero)).
    + apply Hrest; [exact Hj|]. rewrite <- Hlen_row. apply lookup_lt_Some in Hx. exact Hx.
Qed.

Lemma volume_roundtrip_witness :
  ∃ traj, roundtrip example_sim_vol 0 = Ok traj ∧
          length traj = len_tspan example_sim_vol ∧
          ∀ r trow, traj !! r = Some trow → trow !! 0%nat = Some (Some (qz 10)).
Proof.
  assert (0 < qz 1)%Qc as Hpos by reflexivity.
  assert (∀ r, r ∈ initials example_sim_vol → length r = len_species example_sim_vol)
    as Hrect.
  { apply Forall_forall. repeat constructor. }
  destruct (volume_roundtrip example_sim_vol (qz 1) [0%nat] 0 0 [qz 10; qz 0] (qz 10)
              eq_refl Hpos Hrect eq_refl eq_refl eq_refl)
    as (traj & Hrt & Hlen & Hcells).
  exists traj. split; [exact Hrt|]. split; [exact Hlen|].
  intros r trow Htrow. rewrite (Hcells r trow Htrow). reflexivity.
Defined.

(** C1 as stated fails in the column of the source pseudo-species: with
    volume 1 and the initial value 5 for [__source()], the encoder writes 1
    and the decoder returns Avogadro's number. *)
Lemma source_column_not_restored :
  vol source_sim = Some (qz 1) ∧
  (0 < qz 1)%Qc ∧
  initials source_sim !! 0%nat ≫= (.!! 0%nat) = Some (qz 5) ∧
  (∃ traj, roundtrip source_sim 0 = Ok traj ∧
           traj !! 0%nat ≫= (.!! 0%nat) = Some (Some N_A)) ∧
  N_A ≠ qz 5.
Proof.
  split; [reflexivity|]. split; [reflexivity|]. split; [reflexivity|]. split.
  - destruct (roundtrip source_sim 0) as [traj|e] eqn:Hrt; vm_compute in Hrt;
      [|discriminate Hrt].
    injection Hrt as <-. eexists. split; [reflexivity|].
    cbn. do 2 f_equal; apply Qc_is_canon; reflexivity.
  - intros Heq. apply (f_equal this) in Heq. vm_compute in Heq. discriminate Heq.
Qed.

(** ** What a computation adds to the trace *)

Lemma bind_run {A B} (m : M A) (k : A → M B) (s : State) :
  (m ≫= k) s =
  match m s with
  | (Ok a, s') => k a s'
  | (Raise e, s') => (Raise e, s')
  end.
Proof. unfold mbind, M_bind. destruct (m s) as [[a|e] s']; reflexivity. Qed.

Lemma emits_ret {A} (P : Event → Prop) (a : A) : emits P (mret a : M A).
Proof. intros s. exists []. split; [symmetry; apply app_nil_r | constructor]. Qed.

Lemma emits_raise {A} (P : Event → Prop) (e : exn) : emits P (raise e : M A).
Proof. intros s. exists []. split; [symmetry; apply app_nil_r | constructor]. Qed.

Lemma emits_lift {A} (P : Event → Prop) (r : result A) : emits P (lift r).
Proof. intros s. exists []. split; [symmetry; apply app_nil_r | constructor]. Qed.

Lemma emits_emit (P : Event → Prop) (e : Event) : P e → emits P (emit e).
Proof. intros He s. exists [e]. split; [reflexivity | constructor; [exact He | constructor]]. Qed.

Lemma emits_bind {A B} (P : Event → Prop) (m : M A) (k : A → M B) :
  emits P m → (∀ a, emits P (k a)) → emits P (m ≫= k).
Proof.
  intros Hm Hk s. rewrite bind_run. destruct (Hm s) as (new & Hnew & HP).
  destruct (m s) as [[a|e] s']; cbn in Hnew.
  - destruct (Hk a s') as (new' & Hnew' & HP'). exists (new ++ new')%list.
    split; [rewrite Hnew', Hnew, app_assoc; reflexivity | apply Forall_app; auto].
  - exists new. auto.
Qed.

Lemma emits_get_cupsoda_path (P : Event → Prop) (w : World) :
  emits P (_get_cupsoda_path w).
Proof.
  intros s. exists []. split; [|constructor].
  rewrite get_keeps_events. symmetry. apply app_nil_r.
Qed.

Section TraceFacts.
Context `{Builtins}.

Lemma emits_write_file (dir name : string) (content : result string) :
  emits is_setup (write_file dir name content).
Proof.
  unfold write_file. apply emits_bind; [apply emits_lift|].
  intros c. apply emits_emit. exact I.
Qed.

Lemma emits_create_input_files (self : Simulator) (dir : string) :
  emits is_setup (_create_input_files self dir).
Proof.
  unfold _create_input_files.
  repeat (apply emits_bind;
          [first [apply emits_write_file | apply emits_lift] | intros ?]).
  apply emits_ret.
Qed.

Lemma emits_load_with_openfile (w : World) (filename : string) :
  emits is_read (_load_with_openfile w filename).
Proof.
  unfold _load_with_openfile. apply emits_bind; [apply emits_emit; exact I|].
  intros _. apply emits_lift.
Qed.

Lemma emits_load_with_pandas (w : World) (filename : string) :
  emits is_read (_load_with_pandas w filename).
Proof.
  unfold _load_with_pandas. apply emits_bind; [apply emits_emit; exact I|].
  intros _. apply emits_lift.
Qed.

Lemma emits_test_pandas (w : World) (filename : string) :
  emits is_read (_test_pandas w filename).
Proof.
  unfold _test_pandas. apply emits_bind; [apply emits_load_with_openfile|].
  intros data. destruct (pandas w); [|apply emits_ret].
  apply emits_bind; [apply emits_load_with_pandas|].
  intros _. destruct (pandas_faster w); apply emits_ret.
Qed.

Lemma emits_load_one (w : World) (self : Simulator) (out_species : list nat)
    (indir_prefix : string) (use_pandas : bool) (n : nat) :
  emits is_read (load_one w self out_species indir_prefix use_pandas n).
Proof.
  unfold load_one. destruct (negb _); [apply emits_raise|].
  apply emits_bind.
  - destruct (bool_decide (n = 0%nat)); [apply emits_test_pandas|].
    destruct use_pandas.
    + apply emits_bind; [apply emits_load_with_pandas | intros d; apply emits_ret].
    + apply emits_bind; [apply emits_load_with_openfile | intros d; apply emits_ret].
  - intros [data use_pandas']. apply emits_bind; [apply emits_lift|].
    intros [tout_n traj]. apply emits_ret.
Qed.

Lemma emits_load_all (w : World) (self : Simulator) (out_species : list nat)
    (indir_prefix : string) (use_pandas : bool) (ns : list nat) :
  emits is_read (load_all w self out_species indir_prefix use_pandas ns).
Proof.
  revert use_pandas. induction ns as [|n ns IH]; intros use_pandas; cbn [load_all].
  - apply emits_ret.
  - apply emits_bind; [apply emits_load_one|].
    intros [[tout_n traj] use_pandas']. apply emits_bind; [apply IH|].
    intros [tout trajectories]. apply emits_ret.
Qed.

Lemma emits_load_trajectories (w : World) (self : Simulator) (dir : string)
    (out_species : list nat) :
  emits is_read (_load_trajectories w self dir out_species).
Proof.
  unfold _load_trajectories.
  destruct (bool_decide _); [apply emits_raise|].
  destruct (bool_decide _); [apply emits_raise|].
  apply emits_load_all.
Qed.

Lemma load_trajectories_count_mismatch (w : World) (self : Simulator) (dir : string)
    (out_species : list nat) (st : State) :
  length (matching_files w self dir) ≠ length (param_values self) →
  ∃ msg, _load_trajectories w self dir out_species st =
         (Raise (SimulatorException msg), st).
Proof.
  intros Hcount. unfold _load_trajectories. fold (matching_files w self dir).
  destruct (bool_decide (length (matching_files w self dir) = 0%nat));
    [eexists; reflexivity|].
  rewrite bool_decide_true by exact Hcount. eexists. reflexivity.
Qed.
End TraceFacts.

(** ** The course of a run *)

Section RunCases.
Context `{Builtins}.

Lemma run_case_bind {A} (w : World) (self : Simulator) (m : M A)
    (k : A → M SimulationResult) :
  emits is_setup m →
  (∀ a s, run_case w self (k a) s) →
  ∀ s, run_case w self (m ≫= k) s.
Proof.
  intros Hm Hk s. destruct (Hm s) as (new & Hnew & Hsetup).
  pose proof (bind_run m k s) as Hrun.
  destruct (m s) as [[a|e] s1]; cbn in Hnew.
  - destruct (Hk a s1) as
      [e st' setup Hs Hk1 Hev
      |command st' setup Hs Hrc Hk1 Hev
      |command out e st1 st' setup reads Hs Hr Hrc Hev1 Hload Hev Hk1
      |command out res st1 st2 st' setup reads Hs Hr Hrc Hev1 Hload Hev2 Hk1 Hev].
    + eapply (NotStarted _ _ _ _ e st' (new ++ setup));
        [apply Forall_app; auto | congruence | rewrite Hev, Hnew, app_assoc; reflexivity].
    + eapply (SolverFailed _ _ _ _ command st' (new ++ setup));
        [apply Forall_app; auto | exact Hrc | congruence |].
      rewrite Hev, Hnew, <- !app_assoc. reflexivity.
    + eapply (DecodeFailed _ _ _ _ command out e st1 st' (new ++ setup) reads);
        [apply Forall_app; auto | exact Hr | exact Hrc | | exact Hload | exact Hev
        | congruence].
      rewrite Hev1, Hnew, <- !app_assoc. reflexivity.
    + eapply (Succeeded _ _ _ _ command out res st1 st2 st' (new ++ setup) reads);
        [apply Forall_app; auto | exact Hr | exact Hrc | | exact Hload | exact Hev2
        | congruence | exact Hev].
      rewrite Hev1, Hnew, <- !app_assoc. reflexivity.
  - eapply (NotStarted _ _ _ _ e s1 new); [exact Hsetup | exact Hrun | exact Hnew].
Qed.
End RunCases.

Section RunCourse.
Context `{Builtins}.

Lemma bind_assoc_run {A B C} (m : M A) (k1 : A → M B) (k2 : B → M C) (s : State) :
  (m ≫= (λ a, k1 a ≫= k2)) s = ((m ≫= k1) ≫= k2) s.
Proof.
  rewrite !bind_run. destruct (m s) as [[a|e] s']; [rewrite bind_run|]; reflexivity.
Qed.

Lemma solver_started (w : World) (self : Simulator) (command : list string) (s : State) :
  ∃ st1,
    (_ ← emit (Popen command);
     if verbose self then emit (Print (p_stdout (popen w command))) else mret ()) s =
    (Ok (), st1) ∧
    events st1 = (events s ++ [] ++ Popen command :: said w self command)%list.
Proof.
  rewrite bind_run. unfold said. cbn.
  destruct (verbose self); cbn; eexists; (split; [reflexivity|]); cbn;
    [rewrite <- app_assoc|]; reflexivity.
Qed.

Lemma run_case_solver (w : World) (self : Simulator) (command : list string)
    (out_species : list nat) (s : State) :
  run_case w self
    (_ ← emit (Popen command);
     _ ← (if verbose self then emit (Print (p_stdout (popen w command))) else mret ());
     if bool_decide (returncode (popen w command) ≠ 0) then
       raise (SimulatorException
                (rstrip_chars "at line"
                   (if verbose self then "" else p_stdout (popen w command))
                 +:+ nl +:+ rstrip (p_stderr (popen w command))))
     else
       '(tout, trajectories) ←
         _load_trajectories w self (run_outfiles_dir w self) out_species;
       _ ← (if cleanup self then emit (Rmtree (run_outdir w self)) else mret ());
       mret {| simulator := self; tout := tout; trajectories := trajectories |}) s.
Proof.
  set (rest := if bool_decide (returncode (popen w command) ≠ 0) then _ else _).
  destruct (solver_started w self command s) as (st1 & Hpre & Hev1).
  match goal with |- run_case _ _ ?m0 _ => set (m := m0) end.
  assert (m s = rest st1) as Hrun.
  { subst m.
    rewrite (bind_assoc_run (emit (Popen command))
               (λ _, if verbose self then emit (Print (p_stdout (popen w command)))
                     else mret ()) (λ _, rest)).
    rewrite bind_run, Hpre. reflexivity. }
  clearbody m. subst rest.
  destruct (bool_decide (returncode (popen w command) ≠ 0)) eqn:Hrc.
  - apply bool_decide_eq_true in Hrc.
    apply (SolverFailed _ _ _ _ command st1 []);
      [constructor | exact Hrc | exact Hrun | exact Hev1].
  - apply bool_decide_eq_false in Hrc.
    assert (returncode (popen w command) = 0) as Hzero by lia.
    destruct (emits_load_trajectories w self (run_outfiles_dir w self) out_species st1)
      as (reads & Hreads & Hread).
    rewrite bind_run in Hrun.
    destruct (_load_trajectories w self (run_outfiles_dir w self) out_species st1)
      as [[[tout trajectories]|e] st2] eqn:Hload; cbn in Hreads.
    + pose (res := {| simulator := self; tout := tout; trajectories := trajectories |}).
      rewrite bind_run in Hrun.
      destruct (cleanup self) eqn:Hcleanup.
      * eapply (Succeeded _ _ _ _ command out_species res st1 st2 _ [] reads);
          [constructor | exact Hread | exact Hzero | exact Hev1 | exact Hload
          | exact Hreads | exact Hrun |].
        rewrite Hcleanup. reflexivity.
      * eapply (Succeeded _ _ _ _ command out_species res st1 st2 _ [] reads);
          [constructor | exact Hread | exact Hzero | exact Hev1 | exact Hload
          | exact Hreads | exact Hrun |].
        rewrite Hcleanup. symmetry. apply app_nil_r.
    + apply (DecodeFailed _ _ _ _ command out_species e st1 st2 [] reads);
        [constructor | exact Hread | exact Hzero | exact Hev1 | exact Hload
        | exact Hreads | exact Hrun].
Qed.
Lemma run_cases (w : World) (self : Simulator) (st : State) :
  run_case w self (run w self) st.
Proof.
  unfold run. cbv zeta. revert st.
  apply run_case_bind; [apply emits_emit; exact I | intros _].
  apply run_case_bind;
    [destruct (verbose self); [apply emits_emit; exact I | apply emits_ret] | intros _].
  apply run_case_bind; [apply emits_emit; exact I | intros _].
  apply run_case_bind; [apply emits_emit; exact I | intros _].
  apply run_case_bind; [apply emits_get_cupsoda_path | intros bin_path].
  apply run_case_bind; [apply emits_lift | intros blocks].
  apply run_case_bind; [apply emits_create_input_files | intros out_species].
  apply run_case_bind; [apply emits_lift | intros memory].
  apply run_case_bind; [apply emits_emit; exact I | intros _].
  intros s. apply run_case_solver.
Qed.
End RunCourse.

(** ** Text of the solver's error *)

Lemma rstrip_by_tail (strip : ascii → bool) (s : string) :
  ∃ tail, s = rstrip_by strip s +:+ tail ∧
          forallb strip (list_ascii_of_string tail) = true.
Proof.
  induction s as [|c s (tail & Hs & Htail)].
  - exists "". split; reflexivity.
  - cbn [rstrip_by]. destruct (rstrip_by strip s) as [|c' kept] eqn:Hkept.
    + change ("" +:+ tail) with tail in Hs. subst s.
      destruct (strip c) eqn:Hc.
      * exists (String c tail). split; [reflexivity|]. cbn. rewrite Hc. exact Htail.
      * exists tail. split; [reflexivity | exact Htail].
    + exists tail. split; [|exact Htail]. rewrite append_cons, <- Hs. reflexivity.
Qed.

Lemma prefix_append (s tail : string) : String.prefix s (s +:+ tail) = true.
Proof.
  induction s as [|c s IH]; [destruct tail; reflexivity|].
  rewrite append_cons. cbn. destruct (ascii_dec c c); [exact IH | contradiction].
Qed.

Lemma contains_text_prefix (t s : string) :
  String.prefix t s = true → contains_text t s = true.
Proof. intros Hp. destruct s; cbn [contains_text]; rewrite Hp; reflexivity. Qed.

Lemma contains_text_middle (pre t post : string) :
  contains_text t (pre +:+ t +:+ post) = true.
Proof.
  induction pre as [|c pre IH].
  - change ("" +:+ t +:+ post) with (t +:+ post).
    rewrite contains_text_prefix; [reflexivity | apply prefix_append].
  - rewrite append_cons. cbn [contains_text]. rewrite IH. apply orb_true_r.
Qed.

Lemma solver_error_msg_parts (self : Simulator) (p : Process) :
  (∃ head tail, (if verbose self then "" else p_stdout p) = head +:+ tail ∧
                solver_error_msg self p = head +:+ nl +:+ rstrip (p_stderr p)) ∧
  (∃ blanks, p_stderr p = rstrip (p_stderr p) +:+ blanks ∧
             forallb is_space (list_ascii_of_string blanks) = true) ∧
  contains_text (rstrip (p_stderr p)) (solver_error_msg self p) = true.
Proof.
  split; [|split].
  - destruct (rstrip_by_tail (in_chars "at line") (if verbose self then "" else p_stdout p))
      as (tail & Hout & _).
    exists (rstrip_chars "at line" (if verbose self then "" else p_stdout p)), tail.
    split; [exact Hout | reflexivity].
  - apply rstrip_by_tail.
  - unfold solver_error_msg.
    rewrite <- (append_nil_r (rstrip (p_stderr p))) at 2.
    rewrite <- append_assoc. apply contains_text_middle.
Qed.

(** ** Events of the phases of a run *)

Lemma setup_not_later (setup : list Event) (e : Event) :
  Forall is_setup setup → e ∈ setup →
  match e with Popen _ | ReadFile _ | Rmtree _ => False | _ => True end.
Proof.
  intros Hall He. rewrite Forall_forall in Hall. specialize (Hall e He).
  destruct e; cbn in Hall; auto.
Qed.

Lemma reads_only_read (reads : list Event) (e : Event) :
  Forall is_read reads → e ∈ reads →
  match e with ReadFile _ => True | _ => False end.
Proof. intros Hall He. rewrite Forall_forall in Hall. exact (Hall e He). Qed.

Lemma said_only_print (w : World) (self : Simulator) (command : list string) (e : Event) :
  e ∈ said w self command →
  match e with Print _ => True | _ => False end.
Proof.
  unfold said. destruct (verbose self); intros He.
  - apply list_elem_of_singleton in He as ->. exact I.
  - inversion He.
Qed.

(** ** Failures of a run *)

Section RunFailures.
Context `{Builtins}.

(** C5. The decoder, given a number of matching output files other than
    the number of simulations, raises its SimulatorException (the
    MissingOutputError of the specification) and leaves the state as it
    found it: no file is read. A run in which the output directory holds
    such a number of matching files returns no result and reads no
    output file. *)
Theorem count_mismatch_raises (w : World) (self : Simulator) :
  (∀ dir out_species st,
     length (matching_files w self dir) ≠ length (param_values self) →
     ∃ msg, _load_trajectories w self dir out_species st =
            (Raise (SimulatorException msg), st)) ∧
  (∀ st,
     length (matching_files w self (run_outfiles_dir w self)) ≠
       length (param_values self) →
     (∃ e, (run w self st).1 = Raise e) ∧
     ∃ new, events (run w self st).2 = (events st ++ new)%list ∧
            ∀ f, ReadFile f ∉ new).
Proof.
  split; [intros dir out_species st; apply load_trajectories_count_mismatch|].
  intros st Hcount.
  destruct (run_cases w self st) as
    [e st' setup Hs Hrun Hev
    |command st' setup Hs Hrc Hrun Hev
    |command out e st1 st' setup reads Hs Hr Hrc Hev1 Hload Hev Hrun
    |command out res st1 st2 st' setup reads Hs Hr Hrc Hev1 Hload Hev2 Hrun Hev];
    rewrite Hrun; cbn [fst snd].
  - split; [eauto|]. exists setup. split; [exact Hev|].
    intros f Hf. exact (setup_not_later _ _ Hs Hf).
  - split; [eauto|]. exists (setup ++ Popen command :: said w self command)%list.
    split; [exact Hev|]. intros f Hf.
    apply elem_of_app in Hf as [Hf|Hf]; [exact (setup_not_later _ _ Hs Hf)|].
    apply elem_of_cons in Hf as [Hf|Hf]; [discriminate|].
    exact (said_only_print _ _ _ _ Hf).
  - split; [eauto|].
    destruct (load_trajectories_count_mismatch w self _ out st1 Hcount) as (msg & Hmis).
    rewrite Hmis in Hload. injection Hload as _ <-.
    exists (setup ++ Popen command :: said w self command)%list.
    split; [exact Hev1|]. intros f Hf.
    apply elem_of_app in Hf as [Hf|Hf]; [exact (setup_not_later _ _ Hs Hf)|].
    apply elem_of_cons in Hf as [Hf|Hf]; [discriminate|].
    exact (said_only_print _ _ _ _ Hf).
  - destruct (load_trajectories_count_mismatch w self _ out st1 Hcount) as (msg & Hmis).
    rewrite Hmis in Hload. discriminate Hload.
Qed.

Lemma popen_is_the_command (w : World) (self : Simulator) (setup later : list Event)
    (command c : list string) :
  Forall is_setup setup →
  (∀ c', Popen c' ∉ later) →
  Popen c ∈ (setup ++ Popen command :: later)%list →
  c = command.
Proof.
  intros Hs Hlater Hc.
  apply elem_of_app in Hc as [Hc|Hc]; [destruct (setup_not_later _ _ Hs Hc)|].
  apply elem_of_cons in Hc as [Hc|Hc]; [congruence|].
  destruct (Hlater c Hc).
Qed.

(** C6, as the driver has it. When the solver was started and its exit
    code is not zero, run raises a SimulatorException (the
    SolverExecutionError of the specification) and returns no result. The
    message is a leading part of the captured standard output, a newline,
    and the captured standard error less its trailing white space; so it
    contains the standard error up to trailing white space. *)
Theorem solver_failure_raises (w : World) (self : Simulator) (st : State)
    (new : list Event) (command : list string) :
  events (run w self st).2 = (events st ++ new)%list →
  Popen command ∈ new →
  returncode (popen w command) ≠ 0 →
  (run w self st).1 =
    Raise (SimulatorException (solver_error_msg self (popen w command))) ∧
  (∃ head tail,
     (if verbose self then "" else p_stdout (popen w command)) = head +:+ tail ∧
     solver_error_msg self (popen w command) =
       head +:+ nl +:+ rstrip (p_stderr (popen w command))) ∧
  (∃ blanks,
     p_stderr (popen w command) = rstrip (p_stderr (popen w command)) +:+ blanks ∧
     forallb is_space (list_ascii_of_string blanks) = true) ∧
  contains_text (rstrip (p_stderr (popen w command)))
                (solver_error_msg self (popen w command)) = true.
Proof.
  intros Hnew Hin Hexit.
  split; [|apply solver_error_msg_parts].
  destruct (run_cases w self st) as
    [e st' setup Hs Hrun Hev
    |command' st' setup Hs Hrc Hrun Hev
    |command' out e st1 st' setup reads Hs Hr Hrc Hev1 Hload Hev Hrun
    |command' out res st1 st2 st' setup reads Hs Hr Hrc Hev1 Hload Hev2 Hrun Hev];
    rewrite Hrun in Hnew |- *; cbn [fst snd] in Hnew |- *.
  - rewrite Hev in Hnew. apply app_inv_head in Hnew as <-.
    destruct (setup_not_later _ _ Hs Hin).
  - rewrite Hev in Hnew. apply app_inv_head in Hnew as <-.
    apply (popen_is_the_command w self) in Hin as ->; [reflexivity | exact Hs|].
    intros c' Hc'. exact (said_only_print _ _ _ _ Hc').
  - rewrite Hev, Hev1, <- !app_assoc in Hnew. apply app_inv_head in Hnew as <-.
    rewrite <- app_comm_cons in Hin.
    apply (popen_is_the_command w self) in Hin as ->; [contradiction | exact Hs|].
    intros c' Hc'. apply elem_of_app in Hc' as [Hc'|Hc'].
    + exact (said_only_print _ _ _ _ Hc').
    + exact (reads_only_read _ _ Hr Hc').
  - rewrite Hev, Hev2, Hev1, <- !app_assoc in Hnew. apply app_inv_head in Hnew as <-.
    rewrite <- app_comm_cons in Hin.
    apply (popen_is_the_command w self) in Hin as ->; [contradiction | exact Hs|].
    intros c' Hc'. apply elem_of_app in Hc' as [Hc'|Hc'];
      [exact (said_only_print _ _ _ _ Hc')|].
    apply elem_of_app in Hc' as [Hc'|Hc']; [exact (reads_only_read _ _ Hr Hc')|].
    destruct (cleanup self); [|inversion Hc'].
    apply list_elem_of_singleton in Hc'. discriminate Hc'.
Qed.

(** C9, as the driver has it. With cleanup enabled, a run that returns a
    result ends by removing its working directory, and a run that raises
    removes nothing. *)
Theorem cleanup_follows_success (w : World) (self : Simulator) (st : State) :
  cleanup self = true →
  (∀ res st', run w self st = (Ok res, st') →
     ∃ before, events st' = (events st ++ before ++ [Rmtree (run_outdir w self)])%list) ∧
  (∀ e st', run w self st = (Raise e, st') →
     ∃ new, events st' = (events st ++ new)%list ∧ ∀ d, Rmtree d ∉ new).
Proof.
  intros Hcleanup.
  destruct (run_cases w self st) as
    [e0 st0 setup Hs Hrun Hev
    |command st0 setup Hs Hrc Hrun Hev
    |command out e0 st1 st0 setup reads Hs Hr Hrc Hev1 Hload Hev Hrun
    |command out res0 st1 st2 st0 setup reads Hs Hr Hrc Hev1 Hload Hev2 Hrun Hev];
    rewrite Hrun; (split; [intros res st' [= <- <-] | intros e st' [= <- <-]]).
  - exists setup. split; [exact Hev|]. intros d Hd. exact (setup_not_later _ _ Hs Hd).
  - exists (setup ++ Popen command :: said w self command)%list.
    split; [exact Hev|]. intros d Hd.
    apply elem_of_app in Hd as [Hd|Hd]; [exact (setup_not_later _ _ Hs Hd)|].
    apply elem_of_cons in Hd as [Hd|Hd]; [discriminate|].
    exact (said_only_print _ _ _ _ Hd).
  - exists ((setup ++ Popen command :: said w self command) ++ reads)%list.
    split; [rewrite Hev, Hev1, <- !app_assoc; reflexivity|]. intros d Hd.
    apply elem_of_app in Hd as [Hd|Hd]; [|exact (reads_only_read _ _ Hr Hd)].
    apply elem_of_app in Hd as [Hd|Hd]; [exact (setup_not_later _ _ Hs Hd)|].
    apply elem_of_cons in Hd as [Hd|Hd]; [discriminate|].
    exact (said_only_print _ _ _ _ Hd).
  - exists ((setup ++ Popen command :: said w self command) ++ reads)%list.
    rewrite Hev, Hev2, Hev1, Hcleanup, <- !app_assoc. reflexivity.
Qed.
End RunFailures.

Lemma count_mismatch_raises_witness :
  (∃ e, (@run example_builtins short_world example_sim initial_state).1 = Raise e) ∧
  ∃ new, events (@run example_builtins short_world example_sim initial_state).2 =
           (events initial_state ++ new)%list ∧
         ∀ f, ReadFile f ∉ new.
Proof.
  apply (proj2 (@count_mismatch_raises example_builtins short_world example_sim)).
  vm_compute. lia.
Defined.

Lemma solver_failure_raises_witness :
  let command := ["/usr/local/share/cupSODA/cupSODA"; "/tmp/example_run/INPUT"; "1";
                  "/tmp/example_run/OUTPUT"; "example"; "0"; "0"; "2"; "0"] in
  (@run example_builtins failing_world example_sim initial_state).1 =
  Raise (SimulatorException (solver_error_msg example_sim (popen failing_world command))).
Proof.
  intros command.
  refine (proj1 (@solver_failure_raises example_builtins failing_world example_sim
                   initial_state
                   (events (@run example_builtins failing_world example_sim
                              initial_state).2)
                   command eq_refl _ _)).
  - vm_compute. repeat constructor.
  - vm_compute. discriminate.
Defined.

Lemma cleanup_follows_success_witness :
  ∃ res st' before,
    @run example_builtins example_world example_sim initial_state = (Ok res, st') ∧
    events st' =
      (events initial_state ++ before ++
       [Rmtree (run_outdir example_world example_sim)])%list.
Proof.
  destruct (@run example_builtins example_world example_sim initial_state)
    as [[res|e] st'] eqn:Hrun.
  - destruct (proj1 (@cleanup_follows_success example_builtins example_world
                       example_sim initial_state eq_refl) res st' Hrun)
      as (before & Hev).
    exists res, st', before. split; [reflexivity | exact Hev].
  - vm_compute in Hrun. discriminate Hrun.
Defined.

(** C6 as stated fails: the solver exits with code 1 having printed
    [error at line] and, on standard error, [boom] and a newline; the
    message of the exception is [error], a newline and [boom], in which
    neither text occurs as it was captured. *)
Lemma solver_text_is_stripped :
  returncode (popen failing_world []) = 1 ∧
  p_stdout (popen failing_world []) = "error at line" ∧
  p_stderr (popen failing_world []) = "boom" +:+ nl ∧
  (@run example_builtins failing_world example_sim initial_state).1 =
    Raise (SimulatorException ("error" +:+ nl +:+ "boom")) ∧
  contains_text "error at line" ("error" +:+ nl +:+ "boom") = false ∧
  contains_text ("boom" +:+ nl) ("error" +:+ nl +:+ "boom") = false.
Proof. repeat split; vm_compute; reflexivity. Qed.

(** C9 as stated fails: cleanup is enabled, the solver exits with code 1,
    run raises, and no removal of the working directory is attempted. *)
Lemma failed_run_keeps_directory :
  cleanup example_sim = true ∧
  (∃ e, (@run example_builtins failing_world example_sim initial_state).1 = Raise e) ∧
  Forall (λ e, match e with Rmtree _ => False | _ => True end)
         (events (@run example_builtins failing_world example_sim initial_state).2).
Proof.
  split; [reflexivity|]. split.
  - eexists. vm_compute. reflexivity.
  - vm_compute. repeat constructor.
Qed.

(** * The components taken one by one *)

(** ** Binary discovery: what the global holds afterwards *)

(** X1. [set_cupsoda_path] stores the joined path in the module global
    before it looks at the file system: whether the call returns or raises,
    the global holds the path afterwards, nothing is added to the trace, and
    discovery on any machine returns that path without a check. *)
Theorem setter_stores_before_checking (w w' : World) (st : State) (d : string) :
  _cupsoda_path (set_cupsoda_path w d st).2 = Some (path_join d "cupSODA") ∧
  events (set_cupsoda_path w d st).2 = events st ∧
  _get_cupsoda_path w' (set_cupsoda_path w d st).2 =
    (Ok (path_join d "cupSODA"), (set_cupsoda_path w d st).2).
Proof.
  assert (_cupsoda_path (set_cupsoda_path w d st).2 = Some (path_join d "cupSODA") ∧
          events (set_cupsoda_path w d st).2 = events st) as [Hpath Hev].
  { unfold set_cupsoda_path. unfold_M.
    destruct (access_F_OK w _), (isfile w _), (access_X_OK w _); split; reflexivity. }
  split; [exact Hpath|]. split; [exact Hev|].
  apply get_cached. rewrite Hpath. apply truthy_path_joined.
Qed.

Lemma get_fresh (w : World) (st st' : State) (p : string) :
  truthy_path (_cupsoda_path st) = None →
  _get_cupsoda_path w st = (Ok p, st') →
  ∃ d, p = path_join d "cupSODA" ∧
       st' = {| _cupsoda_path := Some p; events := events st |}.
Proof.
  intros Hcache. unfold _get_cupsoda_path. unfold_M. rewrite Hcache.
  destruct (environ w !! path_var) as [d|].
  - unfold _check_bin_dir. destruct (access_F_OK w _); [|discriminate].
    intros [= <- <-]. exists d. split; reflexivity.
  - unfold search_bin_dirs, bin_dirs, _check_bin_dir.
    destruct (access_F_OK w _); [|discriminate].
    intros [= <- <-]. exists "/usr/local/share/cupSODA". split; reflexivity.
Qed.

(** X2. A path that discovery has returned once is returned again by every
    later call, on any machine and whatever has become of the file: the
    call leaves it in the module global, and a later call looks nowhere
    else. Discovery adds nothing to the trace. *)
Theorem resolved_path_is_cached (w w' : World) (st st' : State) (p : string) :
  _get_cupsoda_path w st = (Ok p, st') →
  _cupsoda_path st' = Some p ∧
  events st' = events st ∧
  _get_cupsoda_path w' st' = (Ok p, st').
Proof.
  intros Hget.
  destruct (truthy_path (_cupsoda_path st)) as [p0|] eqn:Hcache.
  - rewrite (get_cached w st p0 Hcache) in Hget. injection Hget as <- <-.
    split; [|split; [reflexivity | apply get_cached, Hcache]].
    unfold truthy_path in Hcache. destruct (_cupsoda_path st) as [q|]; [|discriminate].
    destruct (bool_decide (q = "")); [discriminate | congruence].
  - destruct (get_fresh w st st' p Hcache Hget) as (d & -> & ->).
    split; [reflexivity|]. split; [reflexivity|].
    apply get_cached. apply truthy_path_joined.
Qed.

Lemma resolved_path_is_cached_witness :
  _get_cupsoda_path env_wrong_world
    {| _cupsoda_path := Some "/usr/local/share/cupSODA/cupSODA"; events := [] |} =
  (Ok "/usr/local/share/cupSODA/cupSODA",
   {| _cupsoda_path := Some "/usr/local/share/cupSODA/cupSODA"; events := [] |}).
Proof.
  exact (proj2 (proj2 (resolved_path_is_cached example_world env_wrong_world
                         initial_state _ _ eq_refl))).
Defined.

(** X3. With no path held and CUPSODAPATH unset, discovery looks at the
    first standard place alone: it returns the solver found there, and
    raises otherwise, whatever the second standard place holds, although
    the message of the exception names that place too. *)
Theorem only_first_standard_place (w : World) (st : State) :
  truthy_path (_cupsoda_path st) = None →
  environ w !! path_var = None →
  _get_cupsoda_path w st =
    (if access_F_OK w "/usr/local/share/cupSODA/cupSODA"
     then (Ok "/usr/local/share/cupSODA/cupSODA",
           {| _cupsoda_path := Some "/usr/local/share/cupSODA/cupSODA";
              events := events st |})
     else (Raise (SimulatorException not_installed_msg), st)) ∧
  contains_text "c:/Program Files/cupSODA" not_installed_msg = true.
Proof.
  intros Hcache Henv. split; [|reflexivity].
  unfold _get_cupsoda_path. unfold_M.
  rewrite Hcache, Henv. unfold search_bin_dirs, bin_dirs, _check_bin_dir.
  change (path_join "/usr/local/share/cupSODA" "cupSODA")
    with "/usr/local/share/cupSODA/cupSODA".
  destruct (access_F_OK w "/usr/local/share/cupSODA/cupSODA"); reflexivity.
Qed.

Lemma only_first_standard_place_witness :
  access_F_OK second_place_world (path_join "c:/Program Files/cupSODA" "cupSODA") = true ∧
  _get_cupsoda_path second_place_world initial_state =
    (Raise (SimulatorException not_installed_msg), initial_state).
Proof.
  split; [reflexivity|].
  exact (proj1 (only_first_standard_place second_place_world initial_state
                  eq_refl eq_refl)).
Defined.

(** X4. Discovery that raises leaves the module global and the trace as
    they were, and it raises only when the global holds no path: nothing
    is cached, and the next call searches again, on the machine as it is
    then. *)
Theorem failed_discovery_caches_nothing (w w' : World) (st : State) (e : exn) :
  (_get_cupsoda_path w st).1 = Raise e →
  (_get_cupsoda_path w st).2 = st ∧
  truthy_path (_cupsoda_path st) = None ∧
  _get_cupsoda_path w' (_get_cupsoda_path w st).2 = _get_cupsoda_path w' st.
Proof.
  intros Hraise.
  assert ((_get_cupsoda_path w st).2 = st ∧ truthy_path (_cupsoda_path st) = None)
    as [Hst Hcache].
  { revert Hraise. unfold _get_cupsoda_path. unfold_M.
    destruct (truthy_path (_cupsoda_path st)); [discriminate|].
    destruct (environ w !! path_var) as [d|].
    - destruct (_check_bin_dir w d); [discriminate|]. split; reflexivity.
    - destruct (search_bin_dirs w bin_dirs); [discriminate|]. split; reflexivity. }
  rewrite Hst. auto.
Qed.

Lemma failed_discovery_caches_nothing_witness :
  _get_cupsoda_path example_world (_get_cupsoda_path env_wrong_world initial_state).2 =
  _get_cupsoda_path example_world initial_state.
Proof.
  exact (proj2 (proj2 (failed_discovery_caches_nothing env_wrong_world example_world
                         initial_state _ eq_refl))).
Defined.

(** ** Block planner: the least block count and the threads of a block *)

(** X5. A block count that the planner computes is the least one that
    covers the simulations with the threads per block it chose: one block
    less would leave a simulation without a thread. It is never negative,
    and it is zero exactly when there is no simulation. *)
Theorem nblocks_is_least (w : World) (self : Simulator) (t b : Z) :
  n_blocks (opts self) = None →
  threads_per_block w (gpu self) (len_species self) = Ok t →
  _get_nblocks w self = Ok b →
  (b - 1) * t < Z.of_nat (length (param_values self)) ≤ b * t ∧
  0 ≤ b ∧
  (b = 0 ↔ length (param_values self) = 0%nat).
Proof.
  intros Hnone Ht. unfold _get_nblocks. rewrite Hnone, Ht. cbn.
  pose proof (threads_per_block_nonneg _ _ _ _ Ht) as Hrange.
  unfold ceil_div. destruct (Z.eqb_spec t 0) as [->|Hne]; [discriminate|].
  intros [= <-].
  pose proof (Z.div_mod (- Z.of_nat (length (param_values self))) t Hne) as Hdm.
  pose proof (Z.mod_pos_bound (- Z.of_nat (length (param_values self))) t ltac:(lia)) as Hb.
  set (n := Z.of_nat (length (param_values self))) in *.
  assert (0 ≤ n) as Hn by (subst n; lia).
  assert (length (param_values self) = 0%nat ↔ n = 0) as -> by (subst n; lia).
  set (q := - n / t) in *. set (r := - n `mod` t) in *.
  repeat split; nia.
Qed.

Lemma nblocks_is_least_witness :
  ∃ b, _get_nblocks example_world example_sim = Ok b ∧
       (b - 1) * 32 < Z.of_nat (length (param_values example_sim)) ≤ b * 32.
Proof.
  destruct (_get_nblocks example_world example_sim) as [b|e] eqn:Hb.
  - exists b. split; [reflexivity|].
    exact (proj1 (nblocks_is_least example_world example_sim 32 b eq_refl eq_refl Hb)).
  - vm_compute in Hb. discriminate.
Defined.

(** X6. With pycuda, the threads per block are the largest number that is
    at most 32, at most the device's limit of threads per block, and whose
    threads, at four bytes for every species and four more, fit into the
    shared memory of a block. *)
Theorem threads_fit_the_device (w : World) (gpu n : nat) (devices : list DeviceAttrs)
    (attrs : DeviceAttrs) :
  pycuda w = Some devices →
  devices !! gpu = Some attrs →
  ∃ t, threads_per_block w gpu n = Ok t ∧
       0 ≤ t ≤ 32 ∧
       t ≤ Z.of_N (MAX_THREADS_PER_BLOCK attrs) ∧
       t * ((Z.of_nat n + 1) * 4) ≤ Z.of_N (MAX_SHARED_MEMORY_PER_BLOCK attrs) ∧
       ∀ t', t' ≤ 32 →
             t' ≤ Z.of_N (MAX_THREADS_PER_BLOCK attrs) →
             t' * ((Z.of_nat n + 1) * 4) ≤ Z.of_N (MAX_SHARED_MEMORY_PER_BLOCK attrs) →
             t' ≤ t.
Proof.
  intros Hcuda Hdev. unfold threads_per_block. rewrite Hcuda, Hdev.
  eexists. split; [reflexivity|].
  set (mem := (Z.of_nat n + 1) * 4).
  set (shared := Z.of_N (MAX_SHARED_MEMORY_PER_BLOCK attrs)).
  set (limit := Z.of_N (MAX_THREADS_PER_BLOCK attrs)).
  assert (0 < mem) as Hmem by (subst mem; lia).
  assert (0 ≤ shared) as Hshared by (subst shared; lia).
  assert (0 ≤ limit) as Hlimit by (subst limit; lia).
  assert (0 ≤ shared / mem) as Hq by (apply Z.div_pos; lia).
  pose proof (Z.mul_div_le shared mem Hmem) as Hle.
  split; [lia|]. split; [lia|]. split; [nia|].
  intros t' H32 Hlim Hfit.
  assert (t' ≤ shared / mem) as Hdiv
    by (apply Z.div_le_lower_bound; [exact Hmem | lia]).
  lia.
Qed.

Lemma threads_fit_the_device_witness :
  ∃ t, threads_per_block gpu_world 0 2 = Ok t ∧ 0 ≤ t ≤ 32.
Proof.
  destruct (threads_fit_the_device gpu_world 0 2 _ _ eq_refl eq_refl)
    as (t & Ht & Hrange & _).
  exists t. split; [exact Ht | exact Hrange].
Defined.

(** ** Rate-matrix compiler: no volume, constant rates, and when it returns *)

Lemma rmap_Raise_first {A B} (f : A → result B) (l : list A) (e : exn) :
  (∀ x e', x ∈ l → f x = Raise e' → e' = e) →
  (∃ x, x ∈ l ∧ f x = Raise e) →
  rmap f l = Raise e.
Proof.
  induction l as [|x l IH]; intros Honly (x0 & Hin & Hx0).
  - inversion Hin.
  - rewrite rmap_cons. destruct (f x) as [y|e'] eqn:Hfx; cbn.
    + rewrite IH; [reflexivity | |].
      * intros x' e' Hx'. apply Honly. right. exact Hx'.
      * apply elem_of_cons in Hin as [->|Hin]; [congruence|]. eauto.
    + f_equal. apply (Honly x); [left | exact Hfx].
Qed.

Lemma compress_length {A B} (P : A → Prop) `{∀ x, Decision (P x)} (ps : list A)
    (row : list B) :
  length row = length ps →
  length (compress ((λ p, bool_decide (P p)) <$> ps) row) = length (filter P ps).
Proof.
  revert row. induction ps as [|p ps IH]; intros [|x row] Hlen; try discriminate.
  - reflexivity.
  - cbn [fmap list_fmap compress]. rewrite filter_cons.
    injection Hlen as Hlen. destruct (decide (P p)) as [HP|HP].
    + rewrite bool_decide_true by exact HP. cbn. f_equal. apply IH, Hlen.
    + rewrite bool_decide_false by exact HP. apply IH, Hlen.
Qed.

Lemma count_reactants_total (sp : list string) (rxn : Reaction) :
  (∀ i, i ∈ reactants rxn → (i < length sp)%nat) →
  ∃ n, count_reactants sp rxn = Ok n.
Proof.
  unfold count_reactants. generalize 0%nat.
  induction (reactants rxn) as [|i l IH]; intros acc Hrange.
  - eexists. reflexivity.
  - destruct (lookup_lt_is_Some_2 sp i (Hrange i ltac:(left))) as (s & Hs).
    assert (getitem sp i = Ok s) as Hget by (unfold getitem; rewrite Hs; reflexivity).
    rewrite rfold_cons. cbn beta. rewrite Hget. cbn [mbind result_bind].
    apply IH. intros i' Hi'. apply Hrange. right. exact Hi'.
Qed.

Section CmatrixMore.
Context `{Builtins}.

Lemma rate_loop_constants (par_names : list string) (dict : gmap string nat)
    (row row' : list Qc) (args : list string) (acc : Qc) :
  (∀ x, x ∈ args → x ∉ par_names) →
  rfold (rate_step par_names dict row) args acc =
  rfold (rate_step par_names dict row') args acc.
Proof.
  intros Hconst. apply rfold_ext_in. intros rate x Hx.
  rewrite !rate_step_not_param by (apply Hconst, Hx). reflexivity.
Qed.

Lemma rate_loop_total (par_names : list string) (row : list Qc) (args : list string)
    (acc : Qc) :
  (length par_names ≤ length row)%nat →
  (∀ x, x ∈ args → x ∈ par_names ∨ ∃ v, float_of_str x = Some v) →
  ∃ rate, rfold (rate_step par_names (make_par_dict par_names) row) args acc = Ok rate.
Proof.
  intros Hlen. revert acc. induction args as [|x args IH]; intros acc Hargs.
  - eexists. reflexivity.
  - rewrite rfold_cons.
    assert (∃ rate, rate_step par_names (make_par_dict par_names) row acc x = Ok rate)
      as (rate & ->).
    { unfold rate_step, dict_get, getitem.
      destruct (decide (x ∈ par_names)) as [Hin|Hout].
      - apply list_elem_of_lookup in Hin as (k0 & Hk0).
        destruct (make_par_dict par_names !! x) as [k|] eqn:Hk.
        + cbn. apply make_par_dict_lookup in Hk as [Hk _].
          apply lookup_lt_Some in Hk.
          destruct (lookup_lt_is_Some_2 row k ltac:(lia)) as (v & ->).
          cbn. eexists. reflexivity.
        + exfalso. clear IH Hargs.
          assert (∀ names : list string,
                    x ∈ names → is_Some (make_par_dict names !! x)) as Hdom.
          { intros names. induction names as [|y names IHn] using rev_ind;
              intros Hx; [inversion Hx|].
            rewrite make_par_dict_snoc. destruct (decide (y = x)) as [->|Hne].
            - rewrite lookup_insert_eq. eauto.
            - rewrite lookup_insert_ne by exact Hne. apply IHn.
              apply elem_of_app in Hx as [Hx|Hx]; [exact Hx|].
              apply list_elem_of_singleton in Hx. congruence. }
          destruct (Hdom par_names) as (k & Hk'); [|congruence].
          apply list_elem_of_lookup. eauto.
      - destruct (Hargs x ltac:(left)) as [Hin|(v & ->)]; [contradiction|].
        eexists. reflexivity. }
    cbn. apply IH. intros x' Hx'. apply Hargs. right. exact Hx'.
Qed.

(** X7. Without a volume the compiled matrix has one row per simulation
    and one cell per reaction, and every cell is the plain product of the
    values of the rate arguments the compiler keeps for the reaction:
    nothing is rescaled. *)
Theorem cmatrix_without_volume (self : Simulator) (cm : list (list Qc)) :
  truthy_vol (vol self) = None →
  _get_cmatrix self = Ok cm →
  length cm = length (param_values self) ∧
  ∀ i row, cm !! i = Some row →
    length row = len_rxns self ∧
    ∀ j c, row !! j = Some c →
      ∃ rxn params vals,
        reactions (model self) !! j = Some rxn ∧
        param_values self !! i = Some params ∧
        Forall2 (arg_value (parameters_rules (model self))
                           (rate_columns (model self) params))
                (kept_args rxn) vals ∧
        c = product vals.
Proof.
  intros Hvol. unfold _get_cmatrix.
  rewrite rbind_Ok. intros (par_vals & Hpv & Hrest).
  apply rbind_Ok in Hrest as (rate_order & Horder & Hcm).
  pose proof (rmap_Ok_length _ _ _ Hpv) as Hlen_pv.
  pose proof (rmap_Ok_length _ _ _ Hcm) as Hlen_cm.
  split; [congruence|].
  intros i row Hrow.
  destruct (rmap_Ok_lookup _ _ _ _ _ Hcm Hrow) as (prow & Hprow & Hcells).
  destruct (rmap_Ok_lookup _ _ _ _ _ Hpv Hprow) as (params & Hparams & Hmask).
  apply index_mask_Ok in Hmask.
  pose proof (rmap_Ok_length _ _ _ Hcells) as Hlen_row. rewrite length_seq in Hlen_row.
  split; [exact Hlen_row|].
  intros j c Hc.
  destruct (rmap_Ok_lookup _ _ _ _ _ Hcells Hc) as (j' & Hj' & Hcell).
  apply lookup_seq in Hj' as [-> Hj]. cbn in Hcell.
  unfold cmatrix_cell in Hcell. rewrite Hvol in Hcell.
  apply rbind_Ok in Hcell as (args & Hargs & Hcell).
  apply rbind_Ok in Hcell as (rate & Hrate & [= <-]).
  unfold getitem in Hargs.
  destruct ((kept_args <$> reactions (model self)) !! j) as [args'|] eqn:Hargs';
    [|discriminate]. injection Hargs as ->.
  apply list_lookup_fmap_Some in Hargs' as (rxn & -> & Hrxn).
  apply rate_loop_product in Hrate as (vals & Hvals & ->).
  exists rxn, params, vals. repeat split; try assumption.
  - subst prow. exact Hvals.
  - ring.
Qed.

(** X8. A reaction none of whose kept rate arguments is the name of a
    rate parameter has the same rate constant in every simulation: its
    column of the compiled matrix holds one value. *)
Theorem constant_rate_column (self : Simulator) (cm : list (list Qc)) (j : nat)
    (rxn : Reaction) :
  _get_cmatrix self = Ok cm →
  reactions (model self) !! j = Some rxn →
  (∀ x, x ∈ kept_args rxn → x ∉ parameters_rules (model self)) →
  ∀ i i' row row', cm !! i = Some row → cm !! i' = Some row' →
    ∃ c, row !! j = Some c ∧ row' !! j = Some c.
Proof.
  unfold _get_cmatrix.
  rewrite rbind_Ok. intros (par_vals & Hpv & Hrest) Hrxn Hconst.
  apply rbind_Ok in Hrest as (rate_order & Horder & Hcm).
  assert (∀ i row, cm !! i = Some row →
            ∃ prow c, row !! j = Some c ∧
              cmatrix_cell (vol self) (parameters_rules (model self))
                (make_par_dict (parameters_rules (model self)))
                (kept_args <$> reactions (model self)) rate_order prow j = Ok c)
    as Hcell.
  { intros i row Hrow.
    destruct (rmap_Ok_lookup _ _ _ _ _ Hcm Hrow) as (prow & _ & Hcells).
    pose proof (rmap_Ok_length _ _ _ Hcells) as Hlen. rewrite length_seq in Hlen.
    destruct (lookup_lt_is_Some_2 row j) as (c & Hc).
    { rewrite Hlen. unfold len_rxns. apply lookup_lt_Some in Hrxn. exact Hrxn. }
    destruct (rmap_Ok_lookup _ _ _ _ _ Hcells Hc) as (j' & Hj' & Hcj).
    apply lookup_seq in Hj' as [-> _]. cbn in Hcj. eauto. }
  intros i i' row row' Hrow Hrow'.
  destruct (Hcell i row Hrow) as (prow & c & Hc & Hcj).
  destruct (Hcell i' row' Hrow') as (prow' & c' & Hc' & Hcj').
  exists c. split; [exact Hc|]. rewrite Hc'. f_equal.
  unfold cmatrix_cell, getitem in Hcj, Hcj'.
  rewrite list_lookup_fmap, Hrxn in Hcj, Hcj'. cbn in Hcj, Hcj'.
  rewrite (rate_loop_constants _ _ prow prow' _ _ Hconst) in Hcj.
  congruence.
Qed.

(** X9. A row of parameter values whose length is not the number of
    parameters of the model makes the compiler raise IndexError, whatever
    else the model holds. *)
Theorem wrong_parameter_row_raises (self : Simulator) (row : list Qc) :
  row ∈ param_values self →
  length row ≠ length (parameters (model self)) →
  _get_cmatrix self = Raise IndexError.
Proof.
  intros Hin Hlen. unfold _get_cmatrix.
  rewrite (rmap_Raise_first (index_mask _) (param_values self) IndexError);
    [reflexivity | |].
  - intros x e _. unfold index_mask. destruct (decide _); [discriminate|].
    intros [= <-]. reflexivity.
  - exists row. split; [exact Hin|]. unfold index_mask.
    rewrite decide_False; [reflexivity|]. rewrite length_fmap. congruence.
Qed.

(** X10. The compiler returns a matrix for a well-formed simulator: the
    names of the rate parameters are distinct and are parameters of the
    model, every row of parameter values has one value per parameter,
    every reactant index is inside the species list, and every kept rate
    argument is the name of a rate parameter or spells a number. *)
Theorem cmatrix_returns (self : Simulator) :
  NoDup (parameters_rules (model self)) →
  (∀ x, x ∈ parameters_rules (model self) → x ∈ parameters (model self)) →
  (∀ row, row ∈ param_values self → length row = length (parameters (model self))) →
  (∀ rxn i, rxn ∈ reactions (model self) → i ∈ reactants rxn →
            (i < len_species self)%nat) →
  (∀ rxn x, rxn ∈ reactions (model self) → x ∈ kept_args rxn →
            x ∈ parameters_rules (model self) ∨ ∃ v, float_of_str x = Some v) →
  ∃ cm, _get_cmatrix self = Ok cm.
Proof.
  intros Hnd Hsub Hrows Hreact Hargs. unfold _get_cmatrix.
  set (mask := (λ p, bool_decide (p ∈ parameters_rules (model self)))
                 <$> parameters (model self)).
  rewrite (rmap_fmap_Ok _ (compress mask)).
  2:{ intros row Hrow. unfold index_mask. rewrite decide_True; [reflexivity|].
      subst mask. rewrite length_fmap. symmetry. apply Hrows, Hrow. }
  cbn [mbind result_bind].
  destruct (rmap_total (count_reactants (species (model self))) (reactions (model self)))
    as (rate_order & Horder).
  { intros rxn Hrxn. apply count_reactants_total. intros i Hi. exact (Hreact rxn i Hrxn Hi). }
  rewrite Horder. cbn [mbind result_bind].
  pose proof (rmap_Ok_length _ _ _ Horder) as Hlen_order.
  apply rmap_total. intros prow Hprow.
  apply list_elem_of_fmap in Hprow as (row & -> & Hrow).
  apply rmap_total. intros j Hj. apply elem_of_seq in Hj as [_ Hj]. cbn in Hj.
  unfold len_rxns in Hj.
  destruct (lookup_lt_is_Some_2 (reactions (model self)) j Hj) as (rxn & Hrxn).
  unfold cmatrix_cell, getitem. rewrite list_lookup_fmap, Hrxn. cbn.
  destruct (rate_loop_total (parameters_rules (model self)) (compress mask row)
              (kept_args rxn) 1%Qc) as (rate & ->).
  { subst mask.
    rewrite (compress_length (λ p, p ∈ parameters_rules (model self)))
      by (apply Hrows, Hrow).
    apply submseteq_length, NoDup_submseteq; [exact Hnd|].
    intros x Hx. apply list_elem_of_filter. split; [exact Hx | apply Hsub, Hx]. }
  { intros x Hx. apply (Hargs rxn); [|exact Hx].
    apply list_elem_of_lookup. eauto. }
  cbn. destruct (truthy_vol (vol self)) as [v|] eqn:Hvol; [|eexists; reflexivity].
  destruct (lookup_lt_is_Some_2 rate_order j ltac:(lia)) as (order & ->). cbn.
  rewrite (pow_int_nonzero _ _ (N_A_vol_nonzero _ _ Hvol)). cbn.
  eexists. reflexivity.
Qed.
End CmatrixMore.

Lemma cmatrix_without_volume_witness :
  ∃ cm, @_get_cmatrix example_builtins example_sim = Ok cm ∧
        length cm = length (param_values example_sim).
Proof.
  destruct (@_get_cmatrix example_builtins example_sim) as [cm|e] eqn:Hcm.
  - exists cm. split; [reflexivity|].
    exact (proj1 (@cmatrix_without_volume example_builtins example_sim cm eq_refl Hcm)).
  - vm_compute in Hcm. discriminate.
Defined.

Lemma constant_rate_column_witness :
  ∃ cm, @_get_cmatrix example_builtins two_way_sim = Ok cm ∧
        ∀ i i' row row', cm !! i = Some row → cm !! i' = Some row' →
          ∃ c, row !! 1%nat = Some c ∧ row' !! 1%nat = Some c.
Proof.
  destruct (@_get_cmatrix example_builtins two_way_sim) as [cm|e] eqn:Hcm.
  - exists cm. split; [reflexivity|].
    apply (@constant_rate_column example_builtins two_way_sim cm 1
             {| reactants := [1%nat]; products := [0%nat]; rate_args := ["3"; "__s1"] |}
             Hcm eq_refl).
    intros x Hx Hpar.
    change (x ∈ ["3"]) in Hx. change (x ∈ ["k"]) in Hpar.
    apply list_elem_of_singleton in Hx. apply list_elem_of_singleton in Hpar.
    subst x. discriminate.
  - vm_compute in Hcm. discriminate.
Defined.

Lemma wrong_parameter_row_raises_witness :
  @_get_cmatrix example_builtins ragged_sim = Raise IndexError.
Proof.
  apply (@wrong_parameter_row_raises example_builtins ragged_sim [qz 2]).
  - right. left.
  - cbn. lia.
Defined.

Lemma cmatrix_returns_witness :
  ∃ cm, @_get_cmatrix example_builtins example_sim_vol = Ok cm.
Proof.
  apply (@cmatrix_returns example_builtins example_sim_vol).
  - cbn. apply NoDup_singleton.
  - intros x Hx. change (x ∈ ["k"]) in Hx. apply list_elem_of_singleton in Hx.
    subst x. left.
  - intros row Hrow. change (row ∈ [[qz 1; qz 10]; [qz 2; qz 10]; [qz 3; qz 10]]) in Hrow.
    repeat (apply elem_of_cons in Hrow as [->|Hrow]; [reflexivity|]).
    inversion Hrow.
  - intros rxn i Hrxn Hi.
    change (rxn ∈ [{| reactants := [0%nat]; products := [1%nat];
                      rate_args := ["k"; "__s0"] |}]) in Hrxn.
    apply list_elem_of_singleton in Hrxn. subst rxn.
    apply list_elem_of_singleton in Hi. subst i. cbn. lia.
  - intros rxn x Hrxn Hx.
    change (rxn ∈ [{| reactants := [0%nat]; products := [1%nat];
                      rate_args := ["k"; "__s0"] |}]) in Hrxn.
    apply list_elem_of_singleton in Hrxn. subst rxn.
    change (x ∈ ["k"]) in Hx. left. exact Hx.
Defined.

(** ** Input-file encoder: stoichiometry, the order of the files, the selector *)

Lemma stoich_from (side : list nat) (j acc : nat) :
  foldl (λ n k, if decide (j = k) then S n else n) acc side =
  (acc + length (filter (λ k, k = j) side))%nat.
Proof.
  revert acc. induction side as [|k side IH]; intros acc; cbn [foldl].
  - cbn. lia.
  - rewrite IH, filter_cons. destruct (decide (j = k)) as [->|Hne].
    + rewrite decide_True by reflexivity. cbn. lia.
    + rewrite decide_False by congruence. lia.
Qed.

Lemma sum_list_indicator (k s n : nat) :
  sum_list ((λ j, if decide (k = j) then 1 else 0)%nat <$> seq s n) =
  if decide (s ≤ k < s + n)%nat then 1%nat else 0%nat.
Proof.
  revert s. induction n as [|n IH]; intros s; cbn [seq fmap list_fmap sum_list].
  - rewrite decide_False by lia. reflexivity.
  - rewrite IH. destruct (decide (k = s)) as [->|Hne].
    + rewrite decide_False by lia. rewrite decide_True by lia. reflexivity.
    + destruct (decide (S s ≤ k < S s + n)%nat).
      * rewrite decide_True by lia. reflexivity.
      * rewrite decide_False by lia. reflexivity.
Qed.

Lemma sum_list_plus {A} (f g : A → nat) (l : list A) :
  sum_list ((λ x, f x + g x)%nat <$> l) = (sum_list (f <$> l) + sum_list (g <$> l))%nat.
Proof. induction l as [|x l IH]; cbn; [reflexivity | rewrite IH; lia]. Qed.

(** X11. The stoichiometric coefficient of species [j] on one side of a
    reaction is the number of times [j] occurs there, and the coefficients
    of a row of left_side or right_side add up to the number of
    occurrences of species that have a column: an index outside the
    species list is left out of the row, and no error is raised. *)
Theorem stoichiometry_row_sums (side : list nat) (n : nat) :
  (∀ j, stoich side j = length (filter (λ k, k = j) side)) ∧
  sum_list (stoich side <$> seq 0 n) = length (filter (λ k, (k < n)%nat) side).
Proof.
  split; [intros j; apply (stoich_from side j 0)|].
  induction side as [|k side IH].
  - cbn. induction (seq 0 n) as [|j l IHl]; [reflexivity | exact IHl].
  - rewrite filter_cons.
    rewrite (list_fmap_ext (stoich (k :: side))
               (λ j, (if decide (k = j) then 1 else 0) + stoich side j)%nat (seq 0 n)).
    2:{ intros _ j _. unfold stoich. cbn [foldl]. rewrite !stoich_from.
        destruct (decide (j = k)) as [->|Hne].
        - rewrite decide_True by reflexivity. lia.
        - rewrite decide_False by congruence. lia. }
    rewrite sum_list_plus, IH, sum_list_indicator.
    destruct (decide (k < n)%nat).
    + rewrite decide_True by lia. reflexivity.
    + rewrite decide_False by lia. reflexivity.
Qed.

Section EncoderMore.
Context `{Builtins}.

Ltac step_file :=
  match goal with
  | |- context [match ?r with Ok _ => _ | Raise _ => _ end] =>
      destruct r; cbn [mbind result_bind fst snd files_written first_error
                       _cupsoda_path events]
  end.

Lemma create_input_files_spec (self : Simulator) (dir : string) (st : State) :
  _create_input_files self dir st =
  (match first_error (input_files self) with
   | Some e => Raise e
   | None => select_out_species self
   end,
   {| _cupsoda_path := _cupsoda_path st;
      events := (events st ++ files_written dir (input_files self))%list |}).
Proof.
  unfold _create_input_files, write_file, input_files. unfold_M.
  cbn [mbind result_bind fst snd files_written first_error _cupsoda_path events].
  destruct st as [path evs]. cbn [_cupsoda_path events].
  repeat first
    [ reflexivity
    | rewrite app_nil_r; reflexivity
    | rewrite <- !app_assoc; reflexivity
    | step_file ].
Qed.

End EncoderMore.

Lemma mark_species_inv (obs : list nat) (flags flags' : list bool) :
  rfold (λ flags i, setitem flags i true) obs flags = Ok flags' →
  length flags' = length flags ∧ ∀ i, i ∈ obs → (i < length flags)%nat.
Proof.
  revert flags. induction obs as [|i obs IH]; intros flags.
  - intros [= <-]. split; [reflexivity|]. intros i Hi. inversion Hi.
  - rewrite rfold_cons, rbind_Ok. intros (flags1 & Hset & Hrest).
    unfold setitem in Hset.
    destruct (decide (i < length flags)%nat) as [Hlt|]; [|discriminate].
    injection Hset as <-. apply IH in Hrest as [Hlen Hrange].
    rewrite length_insert in Hlen, Hrange. split; [exact Hlen|].
    intros i' Hi'. apply elem_of_cons in Hi' as [->|Hi']; [exact Hlt | exact (Hrange i' Hi')].
Qed.

Lemma mark_observables_inv (observables : list (list nat)) (flags flags' : list bool) :
  rfold (λ flags obs, rfold (λ flags i, setitem flags i true) obs flags)
        observables flags = Ok flags' →
  length flags' = length flags ∧
  ∀ obs i, obs ∈ observables → i ∈ obs → (i < length flags)%nat.
Proof.
  revert flags. induction observables as [|obs0 observables IH]; intros flags.
  - intros [= <-]. split; [reflexivity|]. intros obs i Hobs. inversion Hobs.
  - rewrite rfold_cons, rbind_Ok. intros (flags1 & Hfirst & Hrest).
    apply mark_species_inv in Hfirst as [Hlen1 Hrange1].
    apply IH in Hrest as [Hlen Hrange]. rewrite Hlen1 in Hlen, Hrange.
    split; [exact Hlen|]. intros obs i Hobs Hi.
    apply elem_of_cons in Hobs as [->|Hobs]; [exact (Hrange1 i Hi) | exact (Hrange obs i Hobs Hi)].
Qed.

(** X13. The selector fails in one way only: with IndexError, and exactly
    when only the species of the observables are asked for and some
    observable names a species index outside the species list. With all
    species asked for, the observables are not looked at. *)
Theorem selector_raises_iff (self : Simulator) :
  (∀ e, select_out_species self = Raise e → e = IndexError) ∧
  ((∃ e, select_out_species self = Raise e) ↔
   obs_species_only self = true ∧
   ∃ obs i, obs ∈ observables (model self) ∧ i ∈ obs ∧ (len_species self ≤ i)%nat).
Proof.
  split.
  - intros e. unfold select_out_species. destruct (obs_species_only self); [|discriminate].
    rewrite rbind_Raise. intros [Hfold|(flags & _ & [=])].
    apply rfold_Raise in Hfold as (flags & obs & _ & Hinner).
    apply rfold_Raise in Hinner as (flags' & i & _ & Hset).
    unfold setitem in Hset. destruct (decide _); [discriminate|]. congruence.
  - unfold select_out_species, len_species.
    destruct (obs_species_only self); [|split; [intros (e & [=]) | intros ([=] & _)]].
    set (n := length (species (model self))).
    set (flags0 := (λ _ : string, false) <$> species (model self)).
    assert (length flags0 = n) as Hlen0 by (subst flags0 n; apply length_fmap).
    split.
    + intros (e & Hraise). split; [reflexivity|].
      destruct (decide (Forall (Forall (λ i, (i < n)%nat)) (observables (model self))))
        as [Hall|Hnot].
      * exfalso.
        destruct (mark_observables (observables (model self)) flags0) as (flags & Hok & _).
        { intros obs i Hobs Hi. rewrite Hlen0.
          rewrite Forall_forall in Hall. specialize (Hall obs Hobs).
          rewrite Forall_forall in Hall. exact (Hall i Hi). }
        rewrite Hok in Hraise. discriminate.
      * apply not_Forall_Exists in Hnot; [|intros obs; apply Forall_dec; intros i; apply _].
        apply Exists_exists in Hnot as (obs & Hobs & Hbad).
        apply not_Forall_Exists in Hbad; [|intros i; apply _].
        apply Exists_exists in Hbad as (i & Hi & Hge).
        exists obs, i. repeat split; [exact Hobs | exact Hi | cbn in Hge; lia].
    + intros (_ & obs & i & Hobs & Hi & Hge).
      destruct (rfold _ (observables (model self)) flags0) as [flags|e] eqn:Hfold.
      * apply mark_observables_inv in Hfold as [_ Hrange].
        specialize (Hrange obs i Hobs Hi). lia.
      * exists e. reflexivity.
Qed.

(** ** Output decoder: the values, the shapes it refuses, the files it reads *)

Lemma rmap_Forall2_total {A B} (f : A → result B) (R : A → B → Prop) (l : list A) :
  (∀ x, x ∈ l → ∃ y, f x = Ok y ∧ R x y) →
  ∃ ys, rmap f l = Ok ys ∧ Forall2 R l ys.
Proof.
  induction l as [|x l IH]; intros Hf.
  - exists []. split; [reflexivity | constructor].
  - destruct (Hf x ltac:(left)) as (y & Hy & HR).
    destruct IH as (ys & Hys & HRs); [intros x' Hx'; apply Hf; right; exact Hx'|].
    exists (y :: ys). rewrite rmap_cons, Hy, Hys. split; [reflexivity|].
    constructor; assumption.
Qed.

Lemma rmap_Forall2_chain {A B C} (g : B → result C) (R : A → B → Prop)
    (S : A → C → Prop) (l : list A) (ys : list B) :
  Forall2 R l ys →
  (∀ x y, R x y → ∃ z, g y = Ok z ∧ S x z) →
  ∃ zs, rmap g ys = Ok zs ∧ Forall2 S l zs.
Proof.
  intros HR Hg. induction HR as [|x y l ys Hxy _ IH].
  - exists []. split; [reflexivity | constructor].
  - destruct (Hg x y Hxy) as (z & Hz & HS). destruct IH as (zs & Hzs & HSs).
    exists (z :: zs). rewrite rmap_cons, Hz, Hzs. split; [reflexivity|].
    constructor; assumption.
Qed.

Lemma stored_row (out : list nat) (vals : list Qc) (n : nat) :
  NoDup out →
  (∀ j, j ∈ out → (j < n)%nat) →
  length vals = length out →
  ∃ stored,
    (vals' ← broadcast (length out) vals;
     assign_columns out (Some <$> vals') (replicate n None)) = Ok stored ∧
    row_holds out n 1%Qc vals stored.
Proof.
  intros Hnd Hrange Hlen. rewrite <- Hlen, broadcast_same. cbn [mbind result_bind].
  destruct (assign_columns_lookup out (Some <$> vals) (replicate n None) Hnd)
    as (stored & Hstored & Hlen_stored & Hin & Hout).
  { rewrite length_fmap. exact Hlen. }
  { intros j Hj. rewrite length_replicate. exact (Hrange j Hj). }
  exists stored. split; [exact Hstored|]. split; [|split].
  - rewrite Hlen_stored. apply length_replicate.
  - intros p j x Hj Hx. rewrite Qcmult_1_r. apply (Hin p j _ Hj).
    rewrite list_lookup_fmap, Hx. reflexivity.
  - intros j Hj Hn. rewrite (Hout j Hj). apply lookup_replicate_2. exact Hn.
Qed.

Lemma scaled_row (out : list nat) (vals : list Qc) (n : nat) (c : Qc)
    (stored : list (option Qc)) :
  NoDup out →
  (∀ j, j ∈ out → (j < n)%nat) →
  length vals = length out →
  row_holds out n 1%Qc vals stored →
  ∃ scaled,
    (vals' ← rmap (getitem stored) out;
     assign_columns out ((λ o : option Qc, (λ x, x * c)%Qc <$> o) <$> vals') stored)
      = Ok scaled ∧
    row_holds out n c vals scaled.
Proof.
  intros Hnd Hrange Hlen (Hlen_stored & Hin & Hout).
  assert (rmap (getitem stored) out = Ok (Some <$> vals)) as Hgather.
  { apply rmap_Ok_Forall2, Forall2_same_length_lookup_2.
    - rewrite length_fmap. symmetry. exact Hlen.
    - intros p j y Hj Hy. apply list_lookup_fmap_Some in Hy as (x & -> & Hx).
      unfold getitem. rewrite (Hin p j x Hj Hx), Qcmult_1_r. reflexivity. }
  rewrite Hgather. cbn [mbind result_bind].
  destruct (assign_columns_lookup out
              ((λ o : option Qc, (λ x, x * c)%Qc <$> o) <$> (Some <$> vals))
              stored Hnd)
    as (scaled & Hscaled & Hlen_scaled & Hin' & Hout').
  { rewrite !length_fmap. exact Hlen. }
  { intros j Hj. rewrite Hlen_stored. exact (Hrange j Hj). }
  exists scaled. split; [exact Hscaled|]. split; [|split].
  - congruence.
  - intros p j x Hj Hx. apply (Hin' p j _ Hj).
    rewrite !list_lookup_fmap, Hx. reflexivity.
  - intros j Hj Hn. rewrite (Hout' j Hj). exact (Hout j Hj Hn).
Qed.

(** X14. From a matrix with one row per time point and, in every row, the
    time and one value per selected species, the decoder builds the times
    and a trajectory with one row per time point and one column per
    species: the column of the p-th selected species holds the value of
    column p + 1 of the matrix, multiplied by Avogadro's number times the
    volume when a volume is set, and every other column holds
    not-a-number. *)
Theorem decoded_values (self : Simulator) (out : list nat) (data : list (list Qc)) :
  NoDup out →
  (∀ j, j ∈ out → (j < len_species self)%nat) →
  data ≠ [] →
  length data = len_tspan self →
  (∀ drow, drow ∈ data → length drow = S (length out)) →
  ∃ tout_n traj,
    decode_data self out data = Ok (tout_n, traj) ∧
    length tout_n = len_tspan self ∧
    length traj = len_tspan self ∧
    ∀ r drow, data !! r = Some drow →
      tout_n !! r = drow !! 0%nat ∧
      ∃ trow, traj !! r = Some trow ∧
        length trow = len_species self ∧
        (∀ p j x, out !! p = Some j → drow !! S p = Some x →
                  trow !! j = Some (Some (decoded self x))) ∧
        (∀ j, j ∉ out → (j < len_species self)%nat → trow !! j = Some None).
Proof.
  intros Hnd Hrange Hne Hrows Hwidth.
  set (n := len_species self).
  destruct (rmap_Forall2_total (λ r : list Qc, getitem r 0%nat)
              (λ drow t, drow !! 0%nat = Some t) data) as (tout_n & Htout & Htimes).
  { intros drow Hdrow. specialize (Hwidth drow Hdrow).
    destruct drow as [|t drow]; [discriminate|]. exists t. split; reflexivity. }
  destruct (rmap_Forall2_total
              (λ r : list Qc,
                 vals ← broadcast (length out) r;
                 assign_columns out (Some <$> vals) (replicate n None))
              (λ vals stored, length vals = length out ∧ row_holds out n 1%Qc vals stored)
              (drop 1 <$> data)) as (stored & Hstored & Hholds).
  { intros vals Hvals. apply list_elem_of_fmap in Hvals as (drow & -> & Hdrow).
    assert (length (drop 1 drow) = length out) as Hlen
      by (rewrite length_drop, (Hwidth drow Hdrow); lia).
    destruct (stored_row out (drop 1 drow) n Hnd Hrange Hlen) as (srow & Hsrow & Hh).
    exists srow. auto. }
  set (c := match truthy_vol (vol self) with
            | Some v => (N_A * v)%Qc
            | None => 1%Qc
            end).
  assert (∃ traj, (traj0 ← store_data (len_tspan self) n out data;
                   match truthy_vol (vol self) with
                   | Some v => scale_columns out (N_A * v)%Qc traj0
                   | None => Ok traj0
                   end) = Ok traj ∧
                  Forall2 (λ vals trow, row_holds out n c vals trow)
                          (drop 1 <$> data) traj) as (traj & Htraj & Hfinal).
  { unfold store_data. rewrite <- Hrows.
    replace (length data) with (length (drop 1 <$> data)) by apply length_fmap.
    rewrite broadcast_same. cbn [mbind result_bind]. rewrite Hstored.
    cbn [mbind result_bind]. subst c.
    destruct (truthy_vol (vol self)) as [v|].
    - unfold scale_columns.
      apply (rmap_Forall2_chain _ _ _ _ _ Hholds).
      intros vals srow [Hlen Hsrow]. apply scaled_row; assumption.
    - exists stored. split; [reflexivity|].
      eapply Forall2_impl; [exact Hholds|]. intros vals srow [_ Hsrow]. exact Hsrow. }
  exists tout_n, traj. split.
  { unfold decode_data. fold n.
    destruct data as [|d0 data']; [contradiction|].
    rewrite Htout. cbn [mbind result_bind].
    apply rbind_Ok in Htraj as (traj0 & -> & Hscale). cbn [mbind result_bind].
    rewrite Hscale. reflexivity. }
  pose proof (Forall2_length _ _ _ Htimes) as Hlen_t.
  pose proof (Forall2_length _ _ _ Hfinal) as Hlen_traj.
  rewrite length_fmap in Hlen_traj.
  split; [congruence|]. split; [congruence|].
  intros r drow Hdrow. split.
  - destruct (Forall2_lookup_l _ _ _ _ _ Htimes Hdrow) as (t & Ht & Hdt). congruence.
  - assert ((drop 1 <$> data) !! r = Some (drop 1 drow)) as Hvals
      by (rewrite list_lookup_fmap, Hdrow; reflexivity).
    destruct (Forall2_lookup_l _ _ _ _ _ Hfinal Hvals) as (trow & Htrow & Hlen & Hin & Hout).
    exists trow. split; [exact Htrow|]. split; [exact Hlen|]. split; [|exact Hout].
    intros p j x Hj Hx. rewrite (Hin p j x Hj).
    + unfold decoded. subst c. destruct (truthy_vol (vol self)); [reflexivity|].
      rewrite Qcmult_1_r. reflexivity.
    + rewrite lookup_drop. exact Hx.
Qed.

Lemma decoded_values_witness :
  ∃ tout_n traj,
    decode_data example_sim [0%nat] [[qz 0; qz 10]; [qz 1; qz 9]] = Ok (tout_n, traj) ∧
    length traj = len_tspan example_sim.
Proof.
  destruct (decoded_values example_sim [0%nat] [[qz 0; qz 10]; [qz 1; qz 9]])
    as (tout_n & traj & Hdec & _ & Hlen & _).
  - apply NoDup_singleton.
  - intros j Hj. apply list_elem_of_singleton in Hj. subst j. cbn. lia.
  - discriminate.
  - reflexivity.
  - intros drow Hdrow.
    repeat (apply elem_of_cons in Hdrow as [->|Hdrow]; [reflexivity|]).
    inversion Hdrow.
  - exists tout_n, traj. split; [exact Hdec | exact Hlen].
Defined.



Section DecoderMore.
Context `{Builtins}.

Lemma load_one_Ok (w : World) (self : Simulator) (out : list nat) (ip : string)
    (up up' : bool) (n : nat) (st st' : State) (t : list Qc)
    (tr : list (list (option Qc))) :
  load_one w self out ip up n st = (Ok (t, tr, up'), st') →
  isfile w (ip +:+ "_" +:+ str_nat n) = true ∧
  (∃ data, np_array_float (file_rows w (ip +:+ "_" +:+ str_nat n)) = Ok data ∧
           decode_data self out data = Ok (t, tr)) ∧
  _cupsoda_path st' = _cupsoda_path st ∧
  events st' =
    (events st ++ ReadFile (ip +:+ "_" +:+ str_nat n) ::
       (if bool_decide (n = 0%nat) && pandas w
        then [ReadFile (ip +:+ "_" +:+ str_nat n)] else []))%list.
Proof.
  unfold load_one. set (f := ip +:+ "_" +:+ str_nat n).
  destruct (isfile w f); cbn [negb]; [|intros [=]].
  unfold _test_pandas, _load_with_pandas, _load_with_openfile. unfold_M.
  destruct (bool_decide (n = 0%nat)), (pandas w), (pandas_faster w), up,
    (np_array_float (file_rows w f)) as [data|]; cbn [andb];
    try (intros [=]; fail);
    destruct (decode_data self out data) as [[t0 tr0]|] eqn:Hdec;
    try (intros [=]; fail);
    intros [= <- <- <- <-]; cbn [_cupsoda_path events];
    (split; [reflexivity|]); (split; [eauto|]); (split; [reflexivity|]);
    rewrite <- ?app_assoc; reflexivity.
Qed.

Lemma load_all_Ok (w : World) (self : Simulator) (out : list nat) (ip : string)
    (ns : list nat) :
  ∀ (up : bool) (st st' : State) (tout : list (list Qc))
    (trajs : list (list (list (option Qc)))),
  load_all w self out ip up ns st = (Ok (tout, trajs), st') →
  length tout = length ns ∧
  Forall2 (λ n tt, isfile w (ip +:+ "_" +:+ str_nat n) = true ∧
                   ∃ data, np_array_float (file_rows w (ip +:+ "_" +:+ str_nat n)) = Ok data ∧
                           decode_data self out data = Ok tt)
          ns (zip tout trajs) ∧
  length trajs = length ns ∧
  _cupsoda_path st' = _cupsoda_path st ∧
  events st' =
    (events st ++
     flat_map (λ n, ReadFile (ip +:+ "_" +:+ str_nat n) ::
                    (if bool_decide (n = 0%nat) && pandas w
                     then [ReadFile (ip +:+ "_" +:+ str_nat n)] else [])) ns)%list.
Proof.
  induction ns as [|n ns IH]; intros up st st' tout trajs; cbn [load_all].
  - intros [= <- <- <-]. cbn. rewrite app_nil_r. repeat split; constructor.
  - rewrite bind_run.
    destruct (load_one w self out ip up n st) as [[[[t tr] up']|e] st1] eqn:Hone;
      [|intros [=]].
    apply load_one_Ok in Hone as (Hfile & Hdata & Hpath1 & Hev1).
    rewrite bind_run.
    destruct (load_all w self out ip up' ns st1) as [[[tout' trajs']|e] st2] eqn:Hall;
      [|intros [=]].
    apply IH in Hall as (Hlen_t & Hfiles & Hlen_tr & Hpath2 & Hev2).
    intros [= <- <- <-]. cbn [length zip zip_with flat_map].
    split; [lia|]. split; [constructor; [split; assumption | exact Hfiles]|].
    split; [lia|]. split; [congruence|].
    rewrite Hev2, Hev1, <- app_assoc. reflexivity.
Qed.
End DecoderMore.

Section DecoderFiles.
Context `{Builtins}.

(** X16. When the decoder returns, the solver has left exactly one file
    per simulation and there is at least one simulation; the decoder
    returns one time vector and one trajectory per simulation, and those
    of simulation [n] are what the matrix parsed from the file
    [<prefix>_<n>] of the output directory decodes to. *)
Theorem loaded_trajectories (w : World) (self : Simulator) (dir : string)
    (out : list nat) (st st' : State) (tout : list (list Qc))
    (trajs : list (list (list (option Qc)))) :
  _load_trajectories w self dir out st = (Ok (tout, trajs), st') →
  length (matching_files w self dir) = length (param_values self) ∧
  (1 ≤ length (param_values self))%nat ∧
  length tout = length (param_values self) ∧
  length trajs = length (param_values self) ∧
  ∀ n, (n < length (param_values self))%nat →
    isfile w (output_file self dir n) = true ∧
    ∃ data t tr,
      np_array_float (file_rows w (output_file self dir n)) = Ok data ∧
      tout !! n = Some t ∧ trajs !! n = Some tr ∧
      decode_data self out data = Ok (t, tr).
Proof.
  unfold _load_trajectories. fold (matching_files w self dir).
  destruct (bool_decide (length (matching_files w self dir) = 0%nat)) eqn:Hzero;
    [intros [=]|].
  destruct (bool_decide (length (matching_files w self dir) ≠ length (param_values self)))
    eqn:Hcount; [intros [=]|].
  apply bool_decide_eq_false in Hzero, Hcount.
  assert (length (matching_files w self dir) = length (param_values self)) as Hsame
    by (destruct (decide (length (matching_files w self dir) =
                          length (param_values self))); [assumption | contradiction]).
  rewrite Hsame in *. intros Hall.
  apply load_all_Ok in Hall as (Hlen_t & Hfiles & Hlen_tr & _ & _).
  rewrite length_seq in Hlen_t, Hlen_tr.
  split; [reflexivity|]. split; [lia|]. split; [exact Hlen_t|]. split; [exact Hlen_tr|].
  intros n Hn.
  destruct (Forall2_lookup_l _ _ _ n n Hfiles) as ([t tr] & Htt & Hfile & data & Hdata & Hdec).
  { apply lookup_seq. split; [reflexivity | exact Hn]. }
  apply lookup_zip_with_Some in Htt as (t' & tr' & [= <- <-] & Ht & Htr).
  split; [exact Hfile|]. exists data, t, tr. auto.
Qed.

(** X17. A decoder that returns has read the file of every simulation
    once, in the order of the simulations, and the file of the first
    simulation a second time where pandas is installed; it has done
    nothing else to the outside. *)
Theorem decoder_reads_each_file (w : World) (self : Simulator) (dir : string)
    (out : list nat) (st st' : State)
    (res : list (list Qc) * list (list (list (option Qc)))) :
  _load_trajectories w self dir out st = (Ok res, st') →
  events st' =
    (events st ++ flat_map (reads_of w self dir)
                           (seq 0 (length (param_values self))))%list ∧
  _cupsoda_path st' = _cupsoda_path st.
Proof.
  unfold _load_trajectories. fold (matching_files w self dir).
  destruct (bool_decide (length (matching_files w self dir) = 0%nat)); [intros [=]|].
  destruct (bool_decide (length (matching_files w self dir) ≠ length (param_values self)))
    eqn:Hcount; [intros [=]|].
  apply bool_decide_eq_false in Hcount.
  assert (length (matching_files w self dir) = length (param_values self)) as ->
    by (destruct (decide (length (matching_files w self dir) =
                          length (param_values self))); [assumption | contradiction]).
  destruct res as [tout trajs]. intros Hall.
  apply load_all_Ok in Hall as (_ & _ & _ & Hpath & Hev).
  split; [exact Hev | exact Hpath].
Qed.
End DecoderFiles.

Lemma loaded_trajectories_witness :
  ∃ tout trajs st',
    @_load_trajectories example_builtins example_world example_sim "/tmp/out" [0%nat]
      initial_state = (Ok (tout, trajs), st') ∧
    length trajs = length (param_values example_sim).
Proof.
  destruct (@_load_trajectories example_builtins example_world example_sim "/tmp/out"
              [0%nat] initial_state) as [[[tout trajs]|e] st'] eqn:Hload.
  - exists tout, trajs, st'. split; [reflexivity|].
    exact (proj1 (proj2 (proj2 (proj2
             (@loaded_trajectories example_builtins _ _ _ _ _ _ _ _ Hload))))).
  - vm_compute in Hload. discriminate.
Defined.

Lemma decoder_reads_each_file_witness :
  ∃ res st',
    @_load_trajectories example_builtins pandas_world example_sim "/tmp/out" [0%nat]
      initial_state = (Ok res, st') ∧
    events st' =
      [ReadFile "/tmp/out/example_0"; ReadFile "/tmp/out/example_0";
       ReadFile "/tmp/out/example_1"; ReadFile "/tmp/out/example_2"].
Proof.
  destruct (@_load_trajectories example_builtins pandas_world example_sim "/tmp/out"
              [0%nat] initial_state) as [[res|e] st'] eqn:Hload.
  - exists res, st'. split; [reflexivity|].
    exact (proj1 (@decoder_reads_each_file example_builtins _ _ _ _ _ _ _ Hload)).
  - vm_compute in Hload. discriminate.
Defined.

(** ** The driver: the stages of a run *)

Lemma emit_run (e : Event) (s : State) :
  emit e s = (Ok (), {| _cupsoda_path := _cupsoda_path s; events := events s ++ [e] |}).
Proof. reflexivity. Qed.

Lemma lift_run {A} (r : result A) (s : State) : lift r s = (r, s).
Proof. reflexivity. Qed.

Lemma emits_impl {A} (P Q : Event → Prop) (m : M A) :
  (∀ e, P e → Q e) → emits P m → emits Q m.
Proof.
  intros HPQ Hm s. destruct (Hm s) as (new & Hnew & HP). exists new.
  split; [exact Hnew | eapply Forall_impl; eauto].
Qed.

Lemma keeps_ret {A} (a : A) : keeps_path (mret a : M A).
Proof. intros s. reflexivity. Qed.

Lemma keeps_raise {A} (e : exn) : keeps_path (raise e : M A).
Proof. intros s. reflexivity. Qed.

Lemma keeps_lift {A} (r : result A) : keeps_path (lift r).
Proof. intros s. reflexivity. Qed.

Lemma keeps_emit (e : Event) : keeps_path (emit e).
Proof. intros s. reflexivity. Qed.

Lemma keeps_bind {A B} (m : M A) (k : A → M B) :
  keeps_path m → (∀ a, keeps_path (k a)) → keeps_path (m ≫= k).
Proof.
  intros Hm Hk s. rewrite bind_run. specialize (Hm s).
  destruct (m s) as [[a|e] s']; cbn in Hm; [rewrite Hk|]; exact Hm.
Qed.

Ltac keeps :=
  repeat first
    [ apply keeps_ret | apply keeps_raise | apply keeps_lift | apply keeps_emit
    | apply keeps_bind; [|intros ?]
    | match goal with
      | |- keeps_path (if ?b then _ else _) => destruct b
      | |- keeps_path (let '(_, _) := ?p in _) => destruct p
      end ].

Lemma setup_dirs_made (w : World) (self : Simulator) : Forall is_setup (dirs_made w self).
Proof. unfold dirs_made. destruct (verbose self); repeat constructor. Qed.

Lemma setup_files_written (dir : string) (files : list (string * result string)) :
  Forall is_setup (files_written dir files).
Proof.
  induction files as [|[name [c|e]] files IH]; cbn; [constructor | | constructor].
  constructor; [exact I | exact IH].
Qed.


Lemma later_not_started (later : list Event) (c : list string) :
  Forall is_later later → Popen c ∉ later.
Proof.
  intros Hlater Hin. rewrite Forall_forall in Hlater. exact (Hlater _ Hin).
Qed.

Lemma setup_not_started (setup : list Event) (c : list string) :
  Forall is_setup setup → Popen c ∉ setup.
Proof.
  intros Hsetup Hin. rewrite Forall_forall in Hsetup. exact (Hsetup _ Hin).
Qed.

Lemma get_resolved (w : World) (st st' : State) (p : string) :
  _get_cupsoda_path w st = (Ok p, st') →
  truthy_path (_cupsoda_path st') = Some p ∧ events st' = events st.
Proof.
  intros Hget.
  destruct (truthy_path (_cupsoda_path st)) as [p0|] eqn:Hcache.
  - rewrite (get_cached w st p0 Hcache) in Hget. injection Hget as <- <-. auto.
  - destruct (get_fresh w st st' p Hcache Hget) as (d & -> & ->).
    split; [apply truthy_path_joined | reflexivity].
Qed.

Section RunStages.
Context `{Builtins}.

Lemma keeps_load_trajectories (w : World) (self : Simulator) (dir : string)
    (out : list nat) :
  keeps_path (_load_trajectories w self dir out).
Proof.
  unfold _load_trajectories.
  destruct (bool_decide _); [apply keeps_raise|].
  destruct (bool_decide _); [apply keeps_raise|].
  generalize false. induction (seq 0 _) as [|n ns IH]; intros up; cbn [load_all].
  - apply keeps_ret.
  - apply keeps_bind.
    + unfold load_one, _test_pandas, _load_with_pandas, _load_with_openfile. keeps.
    + intros [[t tr] up']. apply keeps_bind; [apply IH|]. intros [tout trajs].
      apply keeps_ret.
Qed.

Lemma launch_trace (w : World) (self : Simulator) (command : list string)
    (out : list nat) (s : State) :
  ∃ later,
    events (launch w self command out s).2 = (events s ++ Popen command :: later)%list ∧
    Forall is_later later ∧
    _cupsoda_path (launch w self command out s).2 = _cupsoda_path s.
Proof.
  unfold launch. rewrite bind_run, emit_run. cbv beta iota.
  match goal with
  | |- context [(?m0 ≫= ?k0) ?s0] => set (m := m0 ≫= k0); set (s1 := s0)
  end.
  assert (emits is_later m) as Hemits.
  { subst m. apply emits_bind.
    - destruct (verbose self); [apply emits_emit; exact I | apply emits_ret].
    - intros _. destruct (bool_decide _); [apply emits_raise|].
      apply emits_bind.
      + eapply emits_impl; [|apply emits_load_trajectories].
        intros [] Hread; (exact I || contradiction).
      + intros [tout trajs]. apply emits_bind; [|intros _; apply emits_ret].
        destruct (cleanup self); [apply emits_emit; exact I | apply emits_ret]. }
  assert (keeps_path m) as Hkeeps.
  { subst m. apply keeps_bind; [keeps|]. intros _.
    destruct (bool_decide _); [apply keeps_raise|].
    apply keeps_bind; [apply keeps_load_trajectories|]. intros [tout trajs]. keeps. }
  destruct (Hemits s1) as (later & Hlater & Hall). exists later.
  rewrite Hlater, (Hkeeps s1). subst s1. cbn [events _cupsoda_path].
  rewrite <- app_assoc. auto.
Qed.

Lemma run_prologue {A} (w : World) (self : Simulator) (st : State) (k : M A) :
  (_ ← emit (Mkdtemp (run_outdir w self));
   _ ← (if verbose self
        then emit (Print ("Output directory is " +:+ run_outdir w self))
        else mret ());
   _ ← emit (Mkdir (run_infiles_dir w self));
   _ ← emit (Mkdir (run_outfiles_dir w self));
   k) st =
  k {| _cupsoda_path := _cupsoda_path st; events := (events st ++ dirs_made w self)%list |}.
Proof.
  unfold dirs_made. unfold mbind, M_bind, emit, mret, M_ret.
  destruct (verbose self); cbn [_cupsoda_path events];
    do 2 f_equal; rewrite <- !app_assoc; reflexivity.
Qed.

Lemma run_stages (w : World) (self : Simulator) (st : State) :
  run w self st =
  match _get_cupsoda_path w {| _cupsoda_path := _cupsoda_path st;
                               events := (events st ++ dirs_made w self)%list |} with
  | (Raise e, s1) => (Raise e, s1)
  | (Ok bin_path, s1) =>
      match _get_nblocks w self with
      | Raise e => (Raise e, s1)
      | Ok blocks =>
          match _create_input_files self (run_infiles_dir w self) s1 with
          | (Raise e, s2) => (Raise e, s2)
          | (Ok out, s2) =>
              match _memory_usage self with
              | Raise e => (Raise e, s2)
              | Ok memory =>
                  launch w self (solver_command w self bin_path blocks memory) out
                    {| _cupsoda_path := _cupsoda_path s2;
                       events :=
                         (events s2 ++
                          [announced (solver_command w self bin_path blocks memory)])%list |}
              end
          end
      end
  end.
Proof.
  set (s0 := {| _cupsoda_path := _cupsoda_path st;
                events := (events st ++ dirs_made w self)%list |}).
  pose (rest :=
    (bin_path ← _get_cupsoda_path w;
     blocks ← lift (_get_nblocks w self);
     out ← _create_input_files self (run_infiles_dir w self);
     memory ← lift (_memory_usage self);
     _ ← emit (announced (solver_command w self bin_path blocks memory));
     launch w self (solver_command w self bin_path blocks memory) out)
    : M SimulationResult).
  transitivity (rest s0); [exact (run_prologue w self st rest)|].
  subst rest. rewrite bind_run.
  destruct (_get_cupsoda_path w s0) as [[bin_path|e] s1]; [|reflexivity].
  rewrite bind_run, lift_run.
  destruct (_get_nblocks w self) as [blocks|e]; [|reflexivity].
  rewrite bind_run.
  destruct (_create_input_files self (run_infiles_dir w self) s1) as [[out|e] s2];
    [|reflexivity].
  rewrite bind_run, lift_run.
  destruct (_memory_usage self) as [memory|e]; [|reflexivity].
  rewrite bind_run, emit_run. reflexivity.
Qed.
End RunStages.

Section RunAnatomy.
Context `{Builtins}.

Lemma run_started (w : World) (self : Simulator) (st : State) (new : list Event)
    (c : list string) :
  events (run w self st).2 = (events st ++ new)%list →
  Popen c ∈ new →
  ∃ bin_path blocks out memory later,
    truthy_path (_cupsoda_path (run w self st).2) = Some bin_path ∧
    _get_nblocks w self = Ok blocks ∧
    first_error (input_files self) = None ∧
    select_out_species self = Ok out ∧
    _memory_usage self = Ok memory ∧
    c = solver_command w self bin_path blocks memory ∧
    new = (dirs_made w self ++
           files_written (run_infiles_dir w self) (input_files self) ++
           announced c :: Popen c :: later)%list ∧
    Forall is_later later.
Proof.
  rewrite run_stages.
  set (s0 := {| _cupsoda_path := _cupsoda_path st;
                events := (events st ++ dirs_made w self)%list |}).
  pose proof (get_keeps_events w s0) as Hev1.
  pose proof (setup_dirs_made w self) as Hdirs.
  pose proof (setup_files_written (run_infiles_dir w self) (input_files self)) as Hfiles.
  destruct (_get_cupsoda_path w s0) as [[bin_path|e] s1] eqn:Hget;
    unfold s0 in Hev1; cbn [snd events] in Hev1.
  2:{ cbn [snd]. rewrite Hev1. cbn [events]. intros Hnew%app_inv_head Hin. subst new.
      destruct (setup_not_started _ c Hdirs Hin). }
  apply get_resolved in Hget as [Hpath _].
  destruct (_get_nblocks w self) as [blocks|e].
  2:{ cbn [snd]. rewrite Hev1. cbn [events]. intros Hnew%app_inv_head Hin. subst new.
      destruct (setup_not_started _ c Hdirs Hin). }
  rewrite create_input_files_spec.
  assert (∀ new' : list Event,
            (events s1 ++ files_written (run_infiles_dir w self) (input_files self))%list =
            (events st ++ new')%list →
            Popen c ∉ new') as Hstop.
  { intros new'. rewrite Hev1. cbn [events]. rewrite <- app_assoc.
    intros Hnew%app_inv_head Hin. subst new'.
    apply elem_of_app in Hin as [Hin|Hin];
      [exact (setup_not_started _ c Hdirs Hin) | exact (setup_not_started _ c Hfiles Hin)]. }
  destruct (first_error (input_files self)) as [e|];
    [cbn [snd events]; intros Hnew Hin; destruct (Hstop new Hnew Hin)|].
  destruct (select_out_species self) as [out|e];
    [|cbn [snd events]; intros Hnew Hin; destruct (Hstop new Hnew Hin)].
  cbn [_cupsoda_path events].
  destruct (_memory_usage self) as [memory|e];
    [|cbn [snd events]; intros Hnew Hin; destruct (Hstop new Hnew Hin)].
  set (c0 := solver_command w self bin_path blocks memory).
  match goal with |- context [launch w self c0 out ?s] => set (s3 := s) end.
  destruct (launch_trace w self c0 out s3) as (later & Hlaunch & Hlater & Hkeep).
  rewrite Hlaunch, Hkeep. subst s3. cbn [events _cupsoda_path].
  rewrite Hev1. cbn [events]. rewrite <- !app_assoc.
  intros Hnew%app_inv_head Hin. subst new.
  assert (c = c0) as ->.
  { apply elem_of_app in Hin as [Hin|Hin]; [destruct (setup_not_started _ c Hdirs Hin)|].
    apply elem_of_app in Hin as [Hin|Hin]; [destruct (setup_not_started _ c Hfiles Hin)|].
    cbn in Hin. apply elem_of_cons in Hin as [Hin|Hin]; [discriminate|].
    apply elem_of_cons in Hin as [Hin|Hin]; [congruence|].
    destruct (later_not_started _ c Hlater Hin). }
  exists bin_path, blocks, out, memory, later. repeat split; auto.
Qed.

Lemma run_extends (w : World) (self : Simulator) (st : State) :
  ∃ new, events (run w self st).2 = (events st ++ new)%list.
Proof.
  destruct (run_cases w self st) as
    [e st' setup _ Hrun Hev
    |command st' setup _ _ Hrun Hev
    |command out e st1 st' setup reads _ _ _ Hev1 _ Hev Hrun
    |command out res st1 st2 st' setup reads _ _ _ Hev1 _ Hev2 Hrun Hev];
    rewrite Hrun; cbn [snd]; rewrite Hev; try rewrite Hev2; try rewrite Hev1;
    rewrite <- ?app_assoc; eexists; reflexivity.
Qed.

Lemma run_unstarted_raises (w : World) (self : Simulator) (st : State) (new : list Event) :
  events (run w self st).2 = (events st ++ new)%list →
  (∀ c, Popen c ∉ new) →
  ∃ e, (run w self st).1 = Raise e.
Proof.
  intros Hnew Hnone.
  assert (∀ (st1 st' : State) (setup rest : list Event) (command : list string),
            (run w self st).2 = st' →
            events st1 = (events st ++ setup ++ Popen command :: rest)%list →
            (∃ more, events st' = (events st1 ++ more)%list) → False) as Hstarted.
  { intros st1 st' setup rest command Hst' Hev1 (more & Hev).
    rewrite Hst', Hev, Hev1, <- !app_assoc in Hnew. apply app_inv_head in Hnew.
    apply (Hnone command). rewrite <- Hnew.
    apply elem_of_app. right. apply elem_of_app. left. left. }
  destruct (run_cases w self st) as
    [e st' setup _ Hrun Hev
    |command st' setup _ _ Hrun Hev
    |command out e st1 st' setup reads _ _ _ Hev1 _ Hev Hrun
    |command out res st1 st2 st' setup reads _ _ _ Hev1 _ Hev2 Hrun Hev].
  - exists e. rewrite Hrun. reflexivity.
  - exfalso. apply (Hstarted st' st' setup (said w self command) command).
    + rewrite Hrun. reflexivity.
    + exact Hev.
    + exists []. symmetry. apply app_nil_r.
  - exfalso. apply (Hstarted st1 st' setup (said w self command) command).
    + rewrite Hrun. reflexivity.
    + exact Hev1.
    + eauto.
  - exfalso. apply (Hstarted st1 st' setup (said w self command) command).
    + rewrite Hrun. reflexivity.
    + exact Hev1.
    + eexists. rewrite Hev, Hev2, <- app_assoc. reflexivity.
Qed.

(** X18. Every command line that a run starts the solver with has nine
    words: the path of the solver that discovery returned, which the
    module global holds when the run ends, the directory of the input
    files, the block count of the planner, the directory of the output
    files, the prefix, the index of the GPU, [0], the code of the memory
    option, and [1] or [0] for [verbose]. *)
Theorem solver_command_of_a_run (w : World) (self : Simulator) (st : State)
    (new : list Event) (c : list string) :
  events (run w self st).2 = (events st ++ new)%list →
  Popen c ∈ new →
  ∃ bin_path blocks memory,
    c = [bin_path; path_join (run_outdir w self) "INPUT"; str_int blocks;
         path_join (run_outdir w self) "OUTPUT"; prefix self; str_nat (gpu self);
         "0"; memory; if verbose self then "1" else "0"] ∧
    truthy_path (_cupsoda_path (run w self st).2) = Some bin_path ∧
    _get_nblocks w self = Ok blocks ∧
    _memory_options (memory_usage (opts self)) = Some memory.
Proof.
  intros Hnew Hin.
  destruct (run_started w self st new c Hnew Hin)
    as (bin_path & blocks & out & memory & later & Hpath & Hblocks & _ & _ & Hmem & -> & _).
  exists bin_path, blocks, memory. split; [reflexivity|].
  split; [exact Hpath|]. split; [exact Hblocks|].
  unfold _memory_usage in Hmem.
  destruct (_memory_options (memory_usage (opts self))); [congruence | discriminate].
Qed.


Lemma get_frame (w : World) (st : State) (evs : list Event) :
  _get_cupsoda_path w {| _cupsoda_path := _cupsoda_path st; events := evs |} =
  ((_get_cupsoda_path w st).1,
   {| _cupsoda_path := _cupsoda_path (_get_cupsoda_path w st).2; events := evs |}).
Proof.
  unfold _get_cupsoda_path. unfold_M. cbn [_cupsoda_path events].
  destruct (truthy_path (_cupsoda_path st)); [reflexivity|].
  destruct (environ w !! path_var) as [d|].
  - destruct (_check_bin_dir w d); reflexivity.
  - destruct (search_bin_dirs w bin_dirs); reflexivity.
Qed.

(** X20. A run makes its working directory and the INPUT and OUTPUT
    directories before it looks for the solver. When discovery raises,
    the run raises the same exception, and has done nothing but make the
    directories: no input file is written, the solver is not started, and
    the directories are left behind. *)
Theorem failed_discovery_stops_run (w : World) (self : Simulator) (st : State) (e : exn) :
  (_get_cupsoda_path w st).1 = Raise e →
  run w self st =
  (Raise e, {| _cupsoda_path := _cupsoda_path st;
               events := (events st ++ dirs_made w self)%list |}).
Proof.
  intros Hraise. rewrite run_stages, get_frame, Hraise.
  do 2 f_equal.
  revert Hraise. unfold _get_cupsoda_path. unfold_M.
  destruct (truthy_path (_cupsoda_path st)); [discriminate|].
  destruct (environ w !! path_var) as [d|].
  - destruct (_check_bin_dir w d); [discriminate | reflexivity].
  - destruct (search_bin_dirs w bin_dirs); [discriminate | reflexivity].
Qed.

Lemma first_error_time_max (self : Simulator) :
  first_error (input_files self) = None → tspan self ≠ [].
Proof.
  intros Hnone Hempty. revert Hnone. unfold input_files, time_max_file.
  rewrite Hempty. cbn [first_error last].
  repeat match goal with
         | |- context [match ?r with Ok _ => _ | Raise _ => _ end] => destruct r
         end; discriminate.
Qed.

(** X21. A run on an empty time span, and a run whose [memory_usage] is
    none of [global], [shared] and [sharedconstant], raises, and the
    solver is not started. *)
Theorem unusable_settings_stop_run (w : World) (self : Simulator) (st : State) :
  tspan self = [] ∨ _memory_options (memory_usage (opts self)) = None →
  (∃ e, (run w self st).1 = Raise e) ∧
  ∃ new, events (run w self st).2 = (events st ++ new)%list ∧ ∀ c, Popen c ∉ new.
Proof.
  intros Hbad. destruct (run_extends w self st) as (new & Hnew).
  assert (∀ c, Popen c ∉ new) as Hnone.
  { intros c Hin.
    destruct (run_started w self st new c Hnew Hin)
      as (bin_path & blocks & out & memory & later & _ & _ & Hfiles & _ & Hmem & _).
    destruct Hbad as [Hempty|Hmemory].
    - exact (first_error_time_max self Hfiles Hempty).
    - unfold _memory_usage in Hmem. rewrite Hmemory in Hmem. discriminate. }
  split; [exact (run_unstarted_raises w self st new Hnew Hnone)|].
  exists new. auto.
Qed.

(** X22. With [cleanup] off, a run removes nothing, however it ends. *)
Theorem no_cleanup_keeps_directory (w : World) (self : Simulator) (st : State) :
  cleanup self = false →
  ∃ new, events (run w self st).2 = (events st ++ new)%list ∧ ∀ d, Rmtree d ∉ new.
Proof.
  intros Hcleanup.
  assert (∀ setup, Forall is_setup setup → ∀ d, Rmtree d ∉ setup) as Hsetup.
  { intros setup Hall d Hin. exact (setup_not_later setup _ Hall Hin). }
  assert (∀ reads, Forall is_read reads → ∀ d, Rmtree d ∉ reads) as Hreads.
  { intros reads Hall d Hin. exact (reads_only_read reads _ Hall Hin). }
  assert (∀ command d, Rmtree d ∉ (Popen command :: said w self command)) as Hsaid.
  { intros command d Hin. apply elem_of_cons in Hin as [Hin|Hin]; [discriminate|].
    exact (said_only_print w self command _ Hin). }
  destruct (run_cases w self st) as
    [e st' setup Hs Hrun Hev
    |command st' setup Hs _ Hrun Hev
    |command out e st1 st' setup reads Hs Hr _ Hev1 _ Hev Hrun
    |command out res st1 st2 st' setup reads Hs Hr _ Hev1 _ Hev2 Hrun Hev];
    rewrite Hrun; cbn [snd]; rewrite Hev; try rewrite Hev2; try rewrite Hev1;
    try rewrite Hcleanup; rewrite ?app_nil_r, <- ?app_assoc;
    (eexists; split; [reflexivity|]); intros d Hin;
    repeat (apply elem_of_app in Hin as [Hin|Hin]);
    first [ exact (Hsetup _ Hs d Hin) | exact (Hreads _ Hr d Hin) | exact (Hsaid _ d Hin) ].
Qed.

(** X23. A run that follows a run which started the solver starts the
    same solver binary, on any machine and for any simulator: it takes the
    path from the module global and does not search again. *)
Theorem next_run_reuses_solver (w w' : World) (self self' : Simulator) (st : State)
    (new new' : list Event) (c c' : list string) :
  events (run w self st).2 = (events st ++ new)%list →
  Popen c ∈ new →
  events (run w' self' (run w self st).2).2 =
    (events (run w self st).2 ++ new')%list →
  Popen c' ∈ new' →
  c' !! 0%nat = c !! 0%nat.
Proof.
  intros Hnew Hin Hnew' Hin'.
  destruct (run_started w self st new c Hnew Hin)
    as (bin_path & blocks & out & memory & later & Hpath & _ & _ & _ & _ & -> & _).
  set (st1 := (run w self st).2) in *.
  destruct (run_started w' self' st1 new' c' Hnew' Hin')
    as (bin_path' & blocks' & out' & memory' & later' & Hpath' & _ & _ & _ & _ & -> & _).
  cbn. f_equal.
  revert Hpath'. rewrite run_stages, get_frame.
  rewrite (get_cached w' st1 bin_path Hpath). cbn [fst snd].
  destruct (_get_nblocks w' self') as [b|e]; [|cbn; congruence].
  rewrite create_input_files_spec.
  destruct (first_error (input_files self')) as [e|]; [cbn; congruence|].
  destruct (select_out_species self') as [o|e]; [|cbn; congruence].
  destruct (_memory_usage self') as [m|e]; [|cbn; congruence].
  match goal with |- context [launch w' self' ?c0 o ?s] =>
    destruct (launch_trace w' self' c0 o s) as (l & _ & _ & ->) end.
  cbn. congruence.
Qed.
End RunAnatomy.

Lemma example_run_started :
  Popen example_command ∈
    events (@run example_builtins example_world example_sim initial_state).2.
Proof. apply (list_elem_of_lookup_2 _ 15). vm_compute. reflexivity. Qed.

Lemma solver_command_of_a_run_witness :
  ∃ bin_path blocks memory,
    example_command =
      [bin_path; path_join (run_outdir example_world example_sim) "INPUT"; str_int blocks;
       path_join (run_outdir example_world example_sim) "OUTPUT"; prefix example_sim;
       str_nat (gpu example_sim); "0"; memory;
       if verbose example_sim then "1" else "0"] ∧
    truthy_path
      (_cupsoda_path (@run example_builtins example_world example_sim initial_state).2) =
      Some bin_path ∧
    _get_nblocks example_world example_sim = Ok blocks ∧
    _memory_options (memory_usage (opts example_sim)) = Some memory.
Proof.
  exact (@solver_command_of_a_run example_builtins example_world example_sim initial_state
           _ example_command eq_refl example_run_started).
Defined.


Lemma failed_discovery_stops_run_witness :
  @run example_builtins env_wrong_world example_sim initial_state =
  (Raise (SimulatorException env_not_found_msg),
   {| _cupsoda_path := None;
      events := [Mkdtemp "/tmp/example_run"; Mkdir "/tmp/example_run/INPUT";
                 Mkdir "/tmp/example_run/OUTPUT"] |}).
Proof.
  exact (@failed_discovery_stops_run example_builtins env_wrong_world example_sim
           initial_state _ eq_refl).
Defined.

Lemma unusable_settings_stop_run_witness :
  (∃ e, (@run example_builtins example_world bad_memory_sim initial_state).1 = Raise e) ∧
  ∃ new, events (@run example_builtins example_world bad_memory_sim initial_state).2 =
           (events initial_state ++ new)%list ∧
         ∀ c, Popen c ∉ new.
Proof.
  exact (@unusable_settings_stop_run example_builtins example_world bad_memory_sim
           initial_state (or_intror eq_refl)).
Defined.

Lemma no_cleanup_keeps_directory_witness :
  ∃ new, events (@run example_builtins example_world keep_files_sim initial_state).2 =
           (events initial_state ++ new)%list ∧
         ∀ d, Rmtree d ∉ new.
Proof.
  exact (@no_cleanup_keeps_directory example_builtins example_world keep_files_sim
           initial_state eq_refl).
Defined.

Lemma example_second_run_started :
  let st1 := (@run example_builtins example_world example_sim initial_state).2 in
  events (@run example_builtins env_wrong_world keep_files_sim st1).2 =
    (events st1 ++
     drop (length (events st1))
          (events (@run example_builtins env_wrong_world keep_files_sim st1).2))%list ∧
  Popen example_command ∈
    drop (length (events st1))
         (events (@run example_builtins env_wrong_world keep_files_sim st1).2).
Proof.
  split.
  - vm_compute. reflexivity.
  - apply (list_elem_of_lookup_2 _ 15). vm_compute. reflexivity.
Qed.

Lemma next_run_reuses_solver_witness :
  example_command !! 0%nat = Some "/usr/local/share/cupSODA/cupSODA" ∧
  environ env_wrong_world !! path_var = Some "/opt/missing".
Proof.
  split; [|reflexivity].
  exact (@next_run_reuses_solver example_builtins example_world env_wrong_world
           example_sim keep_files_sim initial_state _ _ example_command example_command
           eq_refl example_run_started
           (proj1 example_second_run_started) (proj2 example_second_run_started)).
Defined.

(** ** The result of a run *)




Section RunResult.
Context `{Builtins}.


End RunResult.


(** ** The constructor's options *)

Lemma cupsoda_defaults_nonempty : cupsoda_defaults ≠ ∅.
Proof.
  intros Hempty. apply (f_equal (lookup "max_steps")) in Hempty.
  vm_compute in Hempty. discriminate.
Qed.

(** X25. For the integrator [cupsoda] the constructor takes every option
    the caller gives and the default for every other: [max_steps],
    [atol], [rtol], [n_blocks] and [memory_usage] are always among the
    options, with the defaults 20000, 1e-8, 1e-8, None and
    [sharedconstant]. For any other integrator the constructor raises
    NameError, not the SimulatorException its source spells out. *)
Theorem constructor_options (integrator : string) (user : gmap string OptValue) :
  (integrator = "cupsoda" →
   ∃ options, init_options integrator user = Ok options ∧
     (∀ key, options !! key =
             match user !! key with
             | Some v => Some v
             | None => cupsoda_defaults !! key
             end) ∧
     (∀ key, key ∈ ["max_steps"; "atol"; "rtol"; "n_blocks"; "memory_usage"] →
             is_Some (options !! key))) ∧
  (integrator ≠ "cupsoda" → init_options integrator user = Raise NameError) ∧
  cupsoda_defaults !! "max_steps" = Some (OInt (max_steps default_integrator_options)) ∧
  cupsoda_defaults !! "atol" = Some (OFloat (atol default_integrator_options)) ∧
  cupsoda_defaults !! "rtol" = Some (OFloat (rtol default_integrator_options)) ∧
  cupsoda_defaults !! "n_blocks" = Some ONone ∧
  n_blocks default_integrator_options = None ∧
  cupsoda_defaults !! "memory_usage" =
    Some (OStr (memory_usage default_integrator_options)).
Proof.
  split; [|split; [|repeat split]].
  - intros ->. unfold init_options, integrator_defaults.
    rewrite lookup_singleton_eq. unfold truthy_dict.
    rewrite bool_decide_false by exact cupsoda_defaults_nonempty.
    cbn [negb mbind result_bind]. eexists. split; [reflexivity|].
    assert (∀ key, dict_update (dict_update ∅ cupsoda_defaults) user !! key =
                   match user !! key with
                   | Some v => Some v
                   | None => cupsoda_defaults !! key
                   end) as Hlookup.
    { intros key. unfold dict_update. rewrite (right_id ∅ (∪) cupsoda_defaults).
      destruct (user !! key) as [v|] eqn:Hkey.
      - apply lookup_union_Some_l. exact Hkey.
      - rewrite lookup_union_r by exact Hkey. reflexivity. }
    split; [exact Hlookup|].
    intros key Hkey. rewrite Hlookup. destruct (user !! key); [eauto|].
    repeat (apply elem_of_cons in Hkey as [->|Hkey]; [vm_compute; eauto|]).
    inversion Hkey.
  - intros Hne. unfold init_options, integrator_defaults.
    rewrite lookup_singleton_ne by congruence. reflexivity.
Qed.
